(** * Verification of scripts/parse_xaml_to_json.py

    A shallow embedding of the text normalizer ([clean_header],
    [clean_tag]) and of the menu tree classifier
    ([parse_menu_item_recursive], [parse_xaml_insert_menu]).

    Python [str] values are modelled as [string]; a character is a code
    point below 256.  On that range the pattern classes [A-Z], [a-z] and
    [\d] of the [re] module are the ASCII ranges. *)

From Stdlib Require Import Bool Arith ZArith Lia List Ascii String.
Import ListNotations.
Set Warnings "-register-all".
Open Scope string_scope.
Open Scope bool_scope.

(** ** Python string primitives *)

Module Str.

(** The double-quote and apostrophe characters, by code point. *)
Definition dquote : ascii := "034"%char.
Definition squote : ascii := "039"%char.
Definition newline : ascii := "010"%char.

(** Truthiness of a [str]: [if s:] holds when [s] is not empty. *)
Definition truthy (s : string) : bool :=
  match s with
  | EmptyString => false
  | String _ _ => true
  end.

(** [s.endswith(suf)]: some suffix of [s] is [suf]. *)
Fixpoint endswith (s suf : string) : bool :=
  if String.eqb s suf then true
  else match s with
       | EmptyString => false
       | String _ t => endswith t suf
       end.

(** [strip_prefix old s] is the rest of [s] after a leading [old]. *)
Fixpoint strip_prefix (old s : string) : option string :=
  match old with
  | EmptyString => Some s
  | String a old' =>
      match s with
      | EmptyString => None
      | String b s' => if Ascii.eqb a b then strip_prefix old' s' else None
      end
  end.

(** [s.startswith(p)]. *)
Definition startswith (s p : string) : bool :=
  match strip_prefix p s with
  | Some _ => true
  | None => false
  end.

(** [s.replace(old, new)] for a non-empty [old]: occurrences are found
    from the left and do not overlap; the scan resumes after each
    occurrence.  Every step consumes at least one character, so
    [length s] steps are enough. *)
Fixpoint replace_fuel (fuel : nat) (old new s : string) : string :=
  match fuel with
  | O => s
  | S fuel' =>
      match strip_prefix old s with
      | Some rest => new ++ replace_fuel fuel' old new rest
      | None =>
          match s with
          | EmptyString => EmptyString
          | String c t => String c (replace_fuel fuel' old new t)
          end
      end
  end.

Definition replace (old new s : string) : string :=
  replace_fuel (String.length s) old new s.

(** The last character of a string. *)
Fixpoint last_char (s : string) : option ascii :=
  match s with
  | EmptyString => None
  | String c EmptyString => Some c
  | String _ t => last_char t
  end.

(** All characters satisfy [p]. *)
Fixpoint all_chars (p : ascii -> bool) (s : string) : bool :=
  match s with
  | EmptyString => true
  | String c t => p c && all_chars p t
  end.

End Str.

(** ** A backtracking matcher for the patterns of the script

    The three patterns of [clean_header] are sequences of character
    classes, greedy [+] repetitions of a class and the [$] anchor, with
    two capture groups at most.  The matcher below follows the [re]
    module: greedy repetition with backtracking, leftmost match. *)

Module Re.

Definition in_range (lo hi : nat) (c : ascii) : bool :=
  Nat.leb lo (nat_of_ascii c) && Nat.leb (nat_of_ascii c) hi.

(** [[A-Z]], [[a-z]], [\d], [[a-z\d]], [[^.}]], and single characters. *)
Definition upper (c : ascii) : bool := in_range 65 90 c.
Definition lower (c : ascii) : bool := in_range 97 122 c.
Definition digit (c : ascii) : bool := in_range 48 57 c.
Definition lower_or_digit (c : ascii) : bool := lower c || digit c.
Definition not_dot_brace (c : ascii) : bool :=
  negb (Ascii.eqb c "."%char) && negb (Ascii.eqb c "}"%char).
Definition is_char (a c : ascii) : bool := Ascii.eqb c a.

(** Capture group an atom belongs to. *)
Inductive group := G0 | G1 | G2.

Inductive atom :=
| One (cls : ascii -> bool)     (* one character of the class *)
| Many1 (cls : ascii -> bool)   (* cls+, greedy *)
| EndAnchor.                    (* $ *)

Definition pattern := list (group * atom).

(** Text captured by group 1 and group 2. *)
Record captures := mkCaptures { group1 : string; group2 : string }.

Definition no_captures : captures := mkCaptures "" "".

Definition capture (g : group) (c : ascii) (caps : captures) : captures :=
  match g with
  | G0 => caps
  | G1 => mkCaptures (group1 caps ++ String c "") (group2 caps)
  | G2 => mkCaptures (group1 caps) (group2 caps ++ String c "")
  end.

(** [$] without MULTILINE: at the end of the string, or just before a
    newline that ends the string. *)
Definition at_end (s : string) : bool :=
  match s with
  | EmptyString => true
  | String c EmptyString => Ascii.eqb c Str.newline
  | _ => false
  end.

(** [match_here p s caps]: match pattern [p] at the start of [s];
    the result is the captures and the unconsumed rest of [s]. *)
Fixpoint match_here (p : pattern) (s : string) (caps : captures)
  : option (captures * string) :=
  match p with
  | [] => Some (caps, s)
  | (g, One cls) :: p' =>
      match s with
      | String c t => if cls c then match_here p' t (capture g c caps) else None
      | EmptyString => None
      end
  | (_, EndAnchor) :: p' =>
      if at_end s then match_here p' s caps else None
  | (g, Many1 cls) :: p' =>
      (fix many (s : string) (caps : captures) {struct s} :=
         match s with
         | String c t =>
             if cls c then
               (* greedy: first try to take more, then fall back *)
               match many t (capture g c caps) with
               | Some r => Some r
               | None => match_here p' t (capture g c caps)
               end
             else None
         | EmptyString => None
         end) s caps
  end.

(** [re.search(p, s)]: the leftmost start position with a match. *)
Fixpoint search (p : pattern) (s : string) : option captures :=
  match match_here p s no_captures with
  | Some (caps, _) => Some caps
  | None =>
      match s with
      | EmptyString => None
      | String _ t => search p t
      end
  end.

(** [re.sub(p, r'\1 \2', s)]: every non-overlapping match, from the left,
    is replaced by group 1, a space, group 2; the scan resumes at the end
    of the match.  The patterns used never match the empty string. *)
Fixpoint sub_fuel (fuel : nat) (p : pattern) (s : string) : string :=
  match fuel with
  | O => s
  | S fuel' =>
      match match_here p s no_captures with
      | Some (caps, rest) =>
          group1 caps ++ " " ++ group2 caps ++ sub_fuel fuel' p rest
      | None =>
          match s with
          | EmptyString => EmptyString
          | String c t => String c (sub_fuel fuel' p t)
          end
      end
  end.

Definition sub (p : pattern) (s : string) : string :=
  sub_fuel (String.length s) p s.

End Re.

(** ** Text normalizer *)

(** [r'\.([^.}]+)}$'] *)
Definition resource_pattern : Re.pattern :=
  [ (Re.G0, Re.One (Re.is_char "."%char));
    (Re.G1, Re.Many1 Re.not_dot_brace);
    (Re.G0, Re.One (Re.is_char "}"%char));
    (Re.G0, Re.EndAnchor) ].

(** [r'([A-Z]+)([A-Z][a-z])'] *)
Definition acronym_pattern : Re.pattern :=
  [ (Re.G1, Re.Many1 Re.upper);
    (Re.G2, Re.One Re.upper);
    (Re.G2, Re.One Re.lower) ].

(** [r'([a-z\d])([A-Z])'] *)
Definition camel_pattern : Re.pattern :=
  [ (Re.G1, Re.One Re.lower_or_digit);
    (Re.G2, Re.One Re.upper) ].

(** The three rewriting steps applied to the extracted identifier. *)
Definition readable (ident : string) : string :=
  let result := Re.sub acronym_pattern ident in
  let result := Re.sub camel_pattern result in
  Str.replace "_" " " result.

Definition clean_header (header : string) : string :=
  if negb (Str.truthy header) then ""
  else if Str.startswith header "{" && Str.endswith header "}" then
    match Re.search resource_pattern header with
    | Some m => readable (Re.group1 m)
    | None => header
    end
  else header.

Definition clean_tag (tag : string) : string :=
  if negb (Str.truthy tag) then ""
  else
    let tag := Str.replace "&lt;" "<" tag in
    let tag := Str.replace "&gt;" ">" tag in
    let tag := Str.replace "&amp;" "&" tag in
    let tag := Str.replace "&quot;" (String Str.dquote "") tag in
    let tag := Str.replace "&apos;" (String Str.squote "") tag in
    tag.

(** The whitespace-trimmed form of a string, as the specification words
    it ([str.strip] on ASCII whitespace); the script itself never trims. *)
Definition is_space (c : ascii) : bool :=
  Nat.leb 9 (nat_of_ascii c) && Nat.leb (nat_of_ascii c) 13
  || Ascii.eqb c " "%char.

Fixpoint lstrip (s : string) : string :=
  match s with
  | String c t => if is_space c then lstrip t else s
  | EmptyString => EmptyString
  end.

Fixpoint rstrip (s : string) : string :=
  match s with
  | EmptyString => EmptyString
  | String c t =>
      match rstrip t with
      | EmptyString => if is_space c then EmptyString else String c EmptyString
      | t' => String c t'
      end
  end.

Definition spec_trim (s : string) : string := rstrip (lstrip s).

(** ** Data model *)

(** An [xml.etree.ElementTree.Element]: tag name, attributes, children in
    document order. *)
Inductive Element :=
| mkElement (tag : string) (attrib : list (string * string))
            (children : list Element).

Definition tag (e : Element) : string :=
  match e with mkElement t _ _ => t end.
Definition attrib (e : Element) : list (string * string) :=
  match e with mkElement _ a _ => a end.
Definition children (e : Element) : list Element :=
  match e with mkElement _ _ c => c end.

(** [item.get(key, default)] *)
Fixpoint lookup_attr (key : string) (a : list (string * string))
  : option string :=
  match a with
  | [] => None
  | (k, v) :: a' => if String.eqb key k then Some v else lookup_attr key a'
  end.

Definition get (e : Element) (key default : string) : string :=
  match lookup_attr key (attrib e) with
  | Some v => v
  | None => default
  end.

(** The values the classifier builds: strings, lists and dicts. *)
Inductive value :=
| VStr (s : string)
| VList (l : list value)
| VDict (d : list (string * value)).

(** A Python [dict] with [str] keys: entries in insertion order, keys
    unique. *)
Definition dict := list (string * value).

(** [d[k]] lookup. *)
Fixpoint dict_get (k : string) (d : dict) : option value :=
  match d with
  | [] => None
  | (k', v') :: d' => if String.eqb k k' then Some v' else dict_get k d'
  end.

(** [d[k] = v]: an existing key keeps its position and takes the new
    value; a new key goes last. *)
Fixpoint dict_set (k : string) (v : value) (d : dict) : dict :=
  match d with
  | [] => [(k, v)]
  | (k', v') :: d' =>
      if String.eqb k k' then (k', v) :: d' else (k', v') :: dict_set k v d'
  end.

(** [d.update(other)] *)
Definition dict_update (d other : dict) : dict :=
  fold_left (fun acc kv => dict_set (fst kv) (snd kv) acc) other d.

Definition keys (d : dict) : list string := map fst d.

Definition is_nil {A} (l : list A) : bool :=
  match l with [] => true | _ => false end.

(** Truthiness of a value. *)
Definition value_truthy (v : value) : bool :=
  match v with
  | VStr s => Str.truthy s
  | VList l => negb (is_nil l)
  | VDict d => negb (is_nil d)
  end.

(** ** Menu tree classifier *)

Definition is_separator (e : Element) : bool := Str.endswith (tag e) "Separator".
Definition is_menu_item (e : Element) : bool := Str.endswith (tag e) "MenuItem".

(** [click == 'Button_Click' and tag] on the raw attributes. *)
Definition leaf_test (e : Element) : bool :=
  String.eqb (get e "Click" "") "Button_Click" && Str.truthy (get e "Tag" "").

(** The [item_data] dict of a leaf item. *)
Definition leaf_action (item : Element) : value :=
  let header := get item "Header" "" in
  let tag := get item "Tag" "" in
  let clean_header_text := clean_header header in
  let clean_tag_text := clean_tag tag in
  let item_data :=
    [("tag", VStr clean_tag_text); ("description", VStr clean_header_text)] in
  let icon := get item "Icon" "" in
  VDict (if Str.truthy icon then dict_set "label" (VStr icon) item_data
         else item_data).

(** One round of the loop over the children: [acc] is
    [(leaf_items, subcategories)]. *)
Definition bucket (acc : list value * dict) (c : Element * option value)
  : list value * dict :=
  let '(leaf_items, subcategories) := acc in
  let '(child, parsed) := c in
  match parsed with
  | None => acc
  | Some parsed_child =>
      let child_header := clean_header (get child "Header" "") in
      if leaf_test child then ((leaf_items ++ [parsed_child])%list, subcategories)
      else if Str.truthy child_header
           then (leaf_items, dict_set child_header parsed_child subcategories)
           else acc
  end.

(** The final shape decision. *)
Definition shape (leaf_items : list value) (subcategories : dict)
  : option value :=
  if negb (is_nil leaf_items) && negb (is_nil subcategories) then
    Some (VDict (dict_update [("direct", VList leaf_items)] subcategories))
  else if negb (is_nil leaf_items) && is_nil subcategories then
    Some (VList leaf_items)
  else if negb (is_nil subcategories) && is_nil leaf_items then
    Some (VDict subcategories)
  else None.

(** The body of [parse_menu_item_recursive], given every child of [item]
    paired with its own classification.  The script also cleans the
    [ToolTip] attribute; the cleaned text is never used. *)
Definition classify_with (item : Element)
           (parsed : list (Element * option value)) : option value :=
  if is_separator item then None
  else if leaf_test item then Some (leaf_action item)
  else
    let children := filter (fun c => is_menu_item (fst c)) parsed in
    if is_nil children then None
    else
      let '(leaf_items, subcategories) := fold_left bucket children ([], []) in
      shape leaf_items subcategories.

Fixpoint parse_menu_item_recursive (item : Element) : option value :=
  match item with
  | mkElement _ _ kids =>
      classify_with item
        (map (fun c => (c, parse_menu_item_recursive c)) kids)
  end.

(** Truthiness of an optional result ([None] is falsy). *)
Definition result_truthy (r : option value) : bool :=
  match r with
  | None => false
  | Some v => value_truthy v
  end.

(** One round of the loop over the children of the root. *)
Definition root_step (result : dict) (menu_item : Element) : dict :=
  if negb (is_menu_item menu_item) then result
  else
    let header := get menu_item "Header" "" in
    if negb (Str.truthy header) then result
    else
      let section_key := clean_header header in
      match parse_menu_item_recursive menu_item with
      | Some parsed_section =>
          if value_truthy parsed_section
          then dict_set section_key parsed_section result
          else result
      | None => result
      end.

(** The loop of [parse_xaml_insert_menu] over a parsed root. *)
Definition menu_document (root : Element) : dict :=
  fold_left root_step (children root) [].

(** Exceptions. *)
Inductive exn :=
| ParseError (msg : string)
| OtherException (msg : string).

Definition outcome (A : Type) : Type := (exn + A)%type.

Definition wrap_content (xaml_content : string) : string :=
  "<root xmlns:x='http://schemas.microsoft.com/winfx/2006/xaml' xmlns:wpf='clr-namespace:Calcpad.Wpf'>"
  ++ xaml_content ++ "</root>".

Section Parser.

(** [ET.fromstring] is library code: it either returns the root element
    or raises. *)
Variable fromstring : string -> outcome Element.

(** The [try] block of [parse_xaml_insert_menu]. *)
Definition parse_body (xaml_content : string) : outcome dict :=
  match fromstring (wrap_content xaml_content) with
  | inl e => inl e
  | inr root => inr (menu_document root)
  end.

(** Both handlers return the empty dict. *)
Definition parse_xaml_insert_menu (xaml_content : string) : outcome dict :=
  match parse_body xaml_content with
  | inl (ParseError _) => inr []
  | inl (OtherException _) => inr []
  | inr result => inr result
  end.

End Parser.

(** ** Vocabulary of the statements *)

(** The children the loop of [parse_menu_item_recursive] runs over. *)
Definition menu_children (item : Element) : list Element :=
  filter is_menu_item (children item).

(** The two accumulators when the loop over the children ends. *)
Definition buckets (item : Element) : list value * dict :=
  fold_left bucket
    (filter (fun c => is_menu_item (fst c))
       (map (fun c => (c, parse_menu_item_recursive c)) (children item)))
    ([], []).

Definition leaf_items_of (item : Element) : list value := fst (buckets item).
Definition subcategories_of (item : Element) : dict := snd (buckets item).

(** The key a child is filed under. *)
Definition child_key (c : Element) : string := clean_header (get c "Header" "").

Definition is_some {A} (o : option A) : bool :=
  match o with Some _ => true | None => false end.

(** A child that goes to the subcategory map: not a leaf item, not
    pruned, and with a non-empty cleaned header. *)
Definition is_subcategory (c : Element) : bool :=
  negb (leaf_test c) && is_some (parse_menu_item_recursive c)
  && Str.truthy (child_key c).

(** The assignment a child makes to the subcategory map, if any. *)
Definition sub_entry (c : Element) : list (string * value) :=
  match parse_menu_item_recursive c with
  | Some parsed_child =>
      if leaf_test c then []
      else if Str.truthy (child_key c) then [(child_key c, parsed_child)]
      else []
  | None => []
  end.

Definition sub_entries (l : list Element) : list (string * value) :=
  flat_map sub_entry l.

Definition mem (k : string) (l : list string) : bool :=
  existsb (String.eqb k) l.

Definition differs (k k' : string) : bool := negb (String.eqb k' k).

(** The distinct elements of a list, in the order of their first
    occurrence. *)
Fixpoint first_occ (l : list string) : list string :=
  match l with
  | [] => []
  | k :: t => k :: filter (differs k) (first_occ t)
  end.

(** Lines 129-130 in closed form: what
    [result = {'direct': leaf_items}; result.update(subcategories)]
    leaves in [result] when the keys of [subcategories] are distinct.
    The key [direct] stays first; when [subcategories] has the key
    [direct] itself, its value takes the place of the leaf items. *)
Definition mixed_result (leaf_items : list value) (subcategories : dict)
  : dict :=
  ("direct",
   match dict_get "direct" subcategories with
   | Some v => v
   | None => VList leaf_items
   end)
  :: filter (fun kv => differs "direct" (fst kv)) subcategories.

(** The mixed Category as the specification words it: the reserved key
    [direct] holds the ordered leaf items and comes first, then every
    subcategory in first-encountered order. *)
Definition spec_mixed (leaf_items : list value) (subcategories : dict)
  : dict :=
  ("direct", VList leaf_items) :: subcategories.

(** A LeafAction: a dict with the keys [tag], [description] and possibly
    [label], in this order, all with string values. *)
Definition is_leaf_action (v : value) : bool :=
  match v with
  | VDict ((k1, VStr _) :: (k2, VStr _) :: rest) =>
      String.eqb k1 "tag" && String.eqb k2 "description"
      && match rest with
         | [] => true
         | [(k3, VStr _)] => String.eqb k3 "label"
         | _ => false
         end
  | _ => false
  end.

Definition returns_leaf_action (r : option value) : bool :=
  match r with
  | Some v => is_leaf_action v
  | None => false
  end.

Definition is_str (v : value) : bool :=
  match v with VStr _ => true | _ => false end.

(** A pattern that starts with a class consumes at least one character. *)
Definition consuming (p : Re.pattern) : bool :=
  match p with
  | (_, Re.One _) :: _ | (_, Re.Many1 _) :: _ => true
  | _ => false
  end.

(** The resource pattern after its leading dot, and after the
    identifier. *)
Definition tail_pattern : Re.pattern :=
  [ (Re.G0, Re.One (Re.is_char "}"%char)); (Re.G0, Re.EndAnchor) ].
Definition ident_pattern : Re.pattern :=
  (Re.G1, Re.Many1 Re.not_dot_brace) :: tail_pattern.

(** ** Sample trees *)

(** [<MenuItem Header=h Tag=t Click="Button_Click"/>] *)
Definition leaf_elem (h t : string) : Element :=
  mkElement "MenuItem" [("Header", h); ("Tag", t); ("Click", "Button_Click")] [].

(** [<MenuItem Header=h> kids </MenuItem>] *)
Definition group_elem (h : string) (kids : list Element) : Element :=
  mkElement "MenuItem" [("Header", h)] kids.

(** Two sibling groups with the same header. *)
Definition first_sub : Element := group_elem "Sub" [leaf_elem "Foo" "t1"].
Definition second_sub : Element := group_elem "Sub" [leaf_elem "Bar" "t2"].
Definition duplicate_groups : Element :=
  group_elem "Top" [first_sub; second_sub].

(** The end-to-end scenario: a section with a leaf item and a group. *)
Definition section_elem : Element :=
  group_elem "{x:Static wpf:C.Sec}"
    [ leaf_elem "Foo" "t1";
      mkElement "Separator" [] [];
      group_elem "Sub" [leaf_elem "Bar" "t2"] ].

(** A separator that carries the attributes of a leaf item. *)
Definition clickable_separator : Element :=
  mkElement "Separator" [("Tag", "t1"); ("Click", "Button_Click")] [].

(** A leaf item, a group [X] and then a group whose header is
    [direct]. *)
Definition direct_collision : Element :=
  group_elem "Top"
    [ leaf_elem "Foo" "t1";
      group_elem "X" [leaf_elem "A" "t3"];
      group_elem "direct" [leaf_elem "Bar" "t2"] ].

(** A leaf item next to a childless menu item whose header is
    [direct]. *)
Definition direct_pruned : Element :=
  group_elem "Top" [ leaf_elem "Foo" "t1"; group_elem "direct" [] ].

(** A leaf item next to a group whose header is [direct]. *)
Definition direct_clash : Element :=
  group_elem "Top"
    [ leaf_elem "Foo" "t1";
      group_elem "direct" [leaf_elem "Bar" "t2"] ].

(** ** Line extraction *)

(** [''.join(lines)] *)
Definition join (lines : list string) : string :=
  fold_right append "" lines.

(** [f.readlines()] on a text file whose content, after newline
    translation, is [content]: the content cut after each newline; every
    line keeps its newline. *)
Fixpoint readlines (content : string) : list string :=
  match content with
  | EmptyString => []
  | String c t =>
      if Ascii.eqb c Str.newline then String c "" :: readlines t
      else match readlines t with
           | [] => [String c ""]
           | line :: rest => String c line :: rest
           end
  end.

(** A slice bound as Python reads it: a negative bound counts from the
    end; every bound is clamped to the list. *)
Definition slice_bound (n k : Z) : Z :=
  if (k <? 0)%Z then Z.max 0 (k + n) else Z.min k n.

(** [l[i:j]] *)
Definition slice {A} (l : list A) (i j : Z) : list A :=
  let n := Z.of_nat (List.length l) in
  let a := slice_bound n i in
  let b := slice_bound n j in
  firstn (Z.to_nat (b - a)) (skipn (Z.to_nat a) l).

(** The [try] block of [extract_lines_from_file], once the lines are
    read. *)
Definition extract_lines (lines : list string) (start_line end_line : Z)
  : outcome string :=
  let start_idx := (start_line - 1)%Z in
  let end_idx := end_line in
  if (start_idx <? 0)%Z || (end_idx >? Z.of_nat (List.length lines))%Z
  then inl (OtherException "Line range is out of bounds")
  else
    let extracted_lines := slice lines start_idx end_idx in
    inr (join extracted_lines).

(** [extract_lines_from_file]: [file] is what opening and reading the
    file gives, its content or an exception; every exception is caught
    and gives the empty string. *)
Definition extract_lines_from_file (file : outcome string)
           (start_line end_line : Z) : string :=
  let body :=
    match file with
    | inl e => inl e
    | inr content => extract_lines (readlines content) start_line end_line
    end in
  match body with
  | inl _ => ""
  | inr extracted => extracted
  end.

(** Sample file contents: two lines, the last one ended by a newline, and
    three lines, the last one not ended. *)
Definition two_lines : string :=
  "one" ++ String Str.newline ("two" ++ String Str.newline "").
Definition three_lines : string :=
  "one" ++ String Str.newline ("two" ++ String Str.newline "three").

(** ** The summary count of [main] *)

(** [count_nested_items(obj, depth)] *)
Fixpoint count_nested_items (obj : value) (depth : nat) : nat :=
  match obj with
  | VList l => List.length l
  | VDict d =>
      (fix items (d : list (string * value)) : nat :=
         match d with
         | [] => 0
         | (_, value) :: d' =>
             match value with
             | VList l => List.length l
             | VDict _ => count_nested_items value (S depth)
             | VStr _ => 0
             end + items d'
         end) d
  | VStr _ => 0
  end.

(** What one entry of a dict adds to the count. *)
Definition entry_count (depth : nat) (kv : string * value) : nat :=
  match snd kv with
  | VList l => List.length l
  | VDict d => count_nested_items (VDict d) (S depth)
  | VStr _ => 0
  end.

(** ** Vocabulary of the further statements *)

(** The string has the character [a]. *)
Fixpoint has_char (a : ascii) (s : string) : bool :=
  match s with
  | EmptyString => false
  | String c t => Ascii.eqb c a || has_char a t
  end.

(** The string without the characters that satisfy [drop]. *)
Fixpoint without (drop : ascii -> bool) (s : string) : string :=
  match s with
  | EmptyString => EmptyString
  | String c t => if drop c then without drop t else String c (without drop t)
  end.

Definition is_blank (c : ascii) : bool := Ascii.eqb c " "%char.
Definition is_blank_or_underscore (c : ascii) : bool :=
  Ascii.eqb c " "%char || Ascii.eqb c "_"%char.

(** No key occurs twice. *)
Fixpoint unique_keys (l : list string) : bool :=
  match l with
  | [] => true
  | k :: t => negb (mem k t) && unique_keys t
  end.

(** A Category: a non-empty list of LeafActions, or a non-empty dict
    with distinct non-empty keys whose values are Categories. *)
Fixpoint is_category (v : value) : bool :=
  match v with
  | VStr _ => false
  | VList l => negb (is_nil l) && forallb is_leaf_action l
  | VDict d =>
      negb (is_nil d) && unique_keys (map fst d)
      && forallb (fun kv => let '(k, x) := kv in
                            Str.truthy k && is_category x) d
  end.

(** An entry of a Category dict: a non-empty key and a Category. *)
Definition entry_ok (kv : string * value) : bool :=
  let '(k, x) := kv in Str.truthy k && is_category x.

(** A child that leaves no trace in its parent's result: not a menu
    item, or pruned, or a group with an empty cleaned header. *)
Definition contributes_nothing (c : Element) : bool :=
  negb (is_menu_item c)
  || negb (is_some (parse_menu_item_recursive c))
  || (negb (leaf_test c) && negb (Str.truthy (child_key c))).

(** The assignment a child of the root makes to the document, if any. *)
Definition root_entry (menu_item : Element) : list (string * value) :=
  if is_menu_item menu_item && Str.truthy (get menu_item "Header" "") then
    match parse_menu_item_recursive menu_item with
    | Some parsed_section =>
        if value_truthy parsed_section
        then [(child_key menu_item, parsed_section)]
        else []
    | None => []
    end
  else [].

(** A child of the root that becomes a section. *)
Definition is_section (menu_item : Element) : bool :=
  is_menu_item menu_item && Str.truthy (get menu_item "Header" "")
  && is_some (parse_menu_item_recursive menu_item).

(** * Properties *)

(** ** Strings *)

Section StringFacts.

Lemma app_empty_r (s : string) : s ++ "" = s.
Proof. induction s as [|c s IH]; simpl; [reflexivity | now rewrite IH]. Qed.

Lemma app_assoc_str (a b c : string) : (a ++ b) ++ c = a ++ (b ++ c).
Proof. induction a as [|x a IH]; simpl; [reflexivity | now rewrite IH]. Qed.

Lemma length_app_str (a b : string) :
  String.length (a ++ b) = String.length a + String.length b.
Proof. induction a as [|x a IH]; simpl; [reflexivity | now rewrite IH]. Qed.

Lemma truthy_true_iff (s : string) : Str.truthy s = true <-> s <> "".
Proof. destruct s; simpl; split; congruence. Qed.

Lemma truthy_false_iff (s : string) : Str.truthy s = false <-> s = "".
Proof. destruct s; simpl; split; congruence. Qed.

Lemma truthy_app_l (a b : string) :
  Str.truthy a = true -> Str.truthy (a ++ b) = true.
Proof. destruct a; simpl; congruence. Qed.

Lemma strip_prefix_length (old s rest : string) :
  Str.strip_prefix old s = Some rest ->
  String.length s = String.length old + String.length rest.
Proof.
  revert s; induction old as [|a old IH]; intros s H; simpl in *.
  - now inversion H.
  - destruct s as [|b s]; [discriminate|].
    destruct (Ascii.eqb a b); [|discriminate].
    simpl. f_equal. now apply IH.
Qed.

(** The step bound of [replace] is not observable: any larger bound
    gives the same string. *)
Lemma replace_fuel_enough (old new : string) :
  old <> "" ->
  forall n s, String.length s <= n ->
    Str.replace_fuel n old new s = Str.replace old new s.
Proof.
  intros Hold. unfold Str.replace.
  induction n as [n IH] using lt_wf_ind. intros s Hlen.
  destruct s as [|c t].
  - destruct n; simpl; [reflexivity|].
    destruct old; [congruence | reflexivity].
  - destruct n as [|n]; [simpl in Hlen; lia|].
    cbn [String.length Str.replace_fuel].
    destruct (Str.strip_prefix old (String c t)) as [rest|] eqn:E.
    + apply strip_prefix_length in E. simpl in E, Hlen.
      assert (0 < String.length old) by (destruct old; simpl; [congruence|lia]).
      rewrite (IH n) by lia.
      rewrite (IH (String.length t)) by lia. reflexivity.
    + simpl in Hlen. rewrite (IH n) by lia. reflexivity.
Qed.

(** Replacing by a non-empty text never empties a non-empty string. *)
Lemma replace_truthy (old new s : string) :
  Str.truthy new = true -> Str.truthy s = true ->
  Str.truthy (Str.replace old new s) = true.
Proof.
  intros Hn Hs. destruct s as [|c t]; [discriminate|].
  unfold Str.replace. cbn [String.length Str.replace_fuel].
  destruct (Str.strip_prefix old (String c t)).
  - now apply truthy_app_l.
  - reflexivity.
Qed.

Lemma endswith_app (u suf : string) : Str.endswith (u ++ suf) suf = true.
Proof.
  induction u as [|c u IH]; cbn [append].
  - destruct suf; cbn [Str.endswith]; now rewrite String.eqb_refl.
  - cbn [Str.endswith].
    now destruct (String.eqb (String c (u ++ suf)) suf).
Qed.

Lemma endswith_last_char (s suf : string) :
  suf <> "" -> Str.endswith s suf = true ->
  Str.last_char s = Str.last_char suf.
Proof.
  intros Hsuf. induction s as [|c s IH]; intros H.
  - simpl in H. destruct suf; [congruence | discriminate].
  - cbn [Str.endswith] in H.
    destruct (String.eqb_spec (String c s) suf) as [->|Hne]; [reflexivity|].
    specialize (IH H). rewrite <- IH.
    destruct s; [|reflexivity].
    simpl in H. destruct suf; [congruence | discriminate].
Qed.

(** A tag name cannot end both in [MenuItem] and in [Separator]. *)
Lemma menu_item_not_separator (s : string) :
  Str.endswith s "MenuItem" = true -> Str.endswith s "Separator" = false.
Proof.
  intros H. destruct (Str.endswith s "Separator") eqn:E; [|reflexivity].
  apply endswith_last_char in H; [|discriminate].
  apply endswith_last_char in E; [|discriminate].
  rewrite H in E. discriminate.
Qed.

End StringFacts.

(** ** The matcher *)

Section MatcherFacts.

Import Re.

(** Unfolding of a greedy repetition on a non-empty input. *)
Lemma match_here_many (g : group) (cls : ascii -> bool) (p : pattern)
      (c : ascii) (t : string) (caps : captures) :
  match_here ((g, Many1 cls) :: p) (String c t) caps =
  if cls c then
    match match_here ((g, Many1 cls) :: p) t (capture g c caps) with
    | Some r => Some r
    | None => match_here p t (capture g c caps)
    end
  else None.
Proof. reflexivity. Qed.

Lemma match_here_many_empty (g : group) (cls : ascii -> bool) (p : pattern)
      (caps : captures) :
  match_here ((g, Many1 cls) :: p) "" caps = None.
Proof. reflexivity. Qed.

(** A match never returns more input than it was given. *)
Lemma match_here_le (p : pattern) :
  forall s caps caps' rest,
    match_here p s caps = Some (caps', rest) ->
    String.length rest <= String.length s.
Proof.
  induction p as [|[g a] p IH]; intros s caps caps' rest H.
  - simpl in H. inversion H; subst. lia.
  - destruct a as [cls|cls|].
    + destruct s as [|c t]; simpl in H; [discriminate|].
      destruct (cls c); [|discriminate].
      apply IH in H. simpl. lia.
    + revert caps H. induction s as [|c t IHs]; intros caps H.
      * rewrite match_here_many_empty in H. discriminate.
      * rewrite match_here_many in H.
        destruct (cls c); [|discriminate].
        destruct (match_here ((g, Many1 cls) :: p) t (capture g c caps))
          as [r|] eqn:E.
        -- inversion H; subst. apply IHs in E. simpl. lia.
        -- apply IH in H. simpl. lia.
    + simpl in H. destruct (at_end s); [|discriminate]. now apply IH in H.
Qed.

Lemma match_here_lt (p : pattern) (s : string) (caps caps' : captures)
      (rest : string) :
  consuming p = true ->
  match_here p s caps = Some (caps', rest) ->
  String.length rest < String.length s.
Proof.
  destruct p as [|[g [cls|cls|]] p]; try discriminate; intros _ H.
  - destruct s as [|c t]; simpl in H; [discriminate|].
    destruct (cls c); [|discriminate].
    apply match_here_le in H. simpl. lia.
  - destruct s as [|c t]; [rewrite match_here_many_empty in H; discriminate|].
    rewrite match_here_many in H.
    destruct (cls c); [|discriminate].
    destruct (match_here ((g, Many1 cls) :: p) t (capture g c caps))
      as [r|] eqn:E.
    + inversion H; subst. apply match_here_le in E. simpl. lia.
    + apply match_here_le in H. simpl. lia.
Qed.

(** The step bound of [sub] is not observable. *)
Lemma sub_fuel_enough (p : pattern) :
  consuming p = true ->
  forall n s, String.length s <= n -> sub_fuel n p s = sub p s.
Proof.
  intros Hp. unfold sub.
  induction n as [n IH] using lt_wf_ind. intros s Hlen.
  destruct n as [|n].
  - destruct s; [reflexivity | simpl in Hlen; lia].
  - destruct s as [|c t].
    + simpl. destruct (match_here p "" no_captures) as [[caps rest]|] eqn:E;
        [|reflexivity].
      apply match_here_lt in E; [simpl in E; lia | assumption].
    + cbn [String.length sub_fuel].
      destruct (match_here p (String c t) no_captures) as [[caps rest]|] eqn:E.
      * apply match_here_lt in E; [|assumption]. simpl in E, Hlen.
        rewrite (IH n) by lia.
        rewrite (IH (String.length t)) by lia. reflexivity.
      * simpl in Hlen. rewrite (IH n) by lia. reflexivity.
Qed.

(** *** The resource-reference pattern on [pre.ident}] *)

Lemma at_end_long (u w : string) :
  w <> "" -> at_end (u ++ String "."%char w) = false.
Proof.
  intros Hw. destruct u as [|c [|d u]]; simpl.
  - destruct w; [congruence | reflexivity].
  - reflexivity.
  - reflexivity.
Qed.

(** Started before the last dot, the identifier part cannot reach the
    closing brace: the run stops at the dot at the latest. *)
Lemma ident_pattern_fails_before_dot (w : string) :
  w <> "" ->
  forall u caps,
    match_here ident_pattern (u ++ String "."%char w) caps = None.
Proof.
  intros Hw. unfold ident_pattern.
  induction u as [|c u IH]; intros caps; cbn [append];
    rewrite match_here_many.
  - reflexivity.
  - destruct (not_dot_brace c); [|reflexivity].
    rewrite IH.
    destruct u as [|d u]; cbn [append].
    + reflexivity.
    + cbn [match_here tail_pattern].
      destruct (is_char "}" d); [|reflexivity].
      cbn [capture]. now rewrite at_end_long.
Qed.

Lemma resource_pattern_fails_before_dot (w : string) (c : ascii) (u : string) :
  w <> "" ->
  match_here resource_pattern (String c (u ++ String "."%char w)) no_captures
  = None.
Proof.
  intros Hw. cbn [resource_pattern match_here].
  destruct (is_char "." c); [|reflexivity].
  now apply ident_pattern_fails_before_dot.
Qed.

(** On the identifier the greedy run takes all of it. *)
Lemma ident_pattern_matches (ident : string) :
  ident <> "" -> Str.all_chars not_dot_brace ident = true ->
  forall caps,
    match_here ident_pattern (ident ++ "}") caps
    = Some (mkCaptures (group1 caps ++ ident) (group2 caps), "").
Proof.
  unfold ident_pattern.
  induction ident as [|c t IH]; intros Hne Hall caps; [congruence|].
  cbn [Str.all_chars] in Hall. apply andb_true_iff in Hall as [Hc Ht].
  cbn [append]. rewrite match_here_many, Hc.
  destruct t as [|d t'].
  - cbn [append]. rewrite match_here_many. simpl. reflexivity.
  - rewrite IH by (assumption || discriminate).
    cbn [capture group1 group2]. rewrite app_assoc_str. reflexivity.
Qed.

Lemma search_resource_pattern (u ident : string) :
  ident <> "" -> Str.all_chars not_dot_brace ident = true ->
  search resource_pattern (u ++ "." ++ ident ++ "}")
  = Some (mkCaptures ident "").
Proof.
  intros Hne Hall.
  assert (Hw : ident ++ "}" <> "") by (destruct ident; simpl; congruence).
  induction u as [|c u IH].
  - cbn [append search resource_pattern match_here]. simpl is_char.
    fold tail_pattern. fold ident_pattern.
    rewrite ident_pattern_matches by assumption. reflexivity.
  - change ((String c u ++ "." ++ ident ++ "}"))
      with (String c (u ++ String "."%char (ident ++ "}"))).
    cbn [search].
    rewrite resource_pattern_fails_before_dot by assumption.
    exact IH.
Qed.

End MatcherFacts.

(** ** Text normalizer *)

Example clean_header_acronym :
  clean_header "{a.ABCDef_fooBar9X}" = "ABC Def foo Bar9 X".
Proof. vm_compute. reflexivity. Qed.

Example clean_header_free_text : clean_header "Insert fooBar" = "Insert fooBar".
Proof. vm_compute. reflexivity. Qed.

Example clean_header_no_dot : clean_header "{Binding Foo}" = "{Binding Foo}".
Proof. vm_compute. reflexivity. Qed.

Example clean_tag_entities : clean_tag "A &lt;B&gt; &amp; C" = "A <B> & C".
Proof. vm_compute. reflexivity. Qed.

(** Each of the five replacements keeps a non-empty string non-empty. *)
Lemma clean_tag_truthy (s : string) :
  Str.truthy (clean_tag s) = Str.truthy s.
Proof.
  unfold clean_tag. destruct (Str.truthy s) eqn:E; simpl; [|reflexivity].
  repeat (apply replace_truthy; [reflexivity|]). exact E.
Qed.

(** C5: on the resource reference
    [{x:Static wpf:ConstantsResources.InsertFunctionHeader}] the header
    cleaner returns exactly [Insert Function Header]: braces and dotted
    prefix are gone and a space stands at each PascalCase boundary. *)
Theorem clean_header_insert_function_header :
  clean_header "{x:Static wpf:ConstantsResources.InsertFunctionHeader}"
  = "Insert Function Header".
Proof. vm_compute. reflexivity. Qed.

(** C4: the script unescapes [&amp;] third, before [&quot;] and [&apos;],
    so the text [&amp;quot;] is unescaped twice: the result is the
    double-quote character, not [&quot;]. *)
Theorem clean_tag_amp_quot_unescaped_twice :
  clean_tag "&amp;quot;" = String Str.dquote ""
  /\ clean_tag "&amp;quot;" <> "&quot;"
  /\ clean_tag "&amp;apos;" = String Str.squote ""
  /\ clean_tag "&amp;lt;" = "&lt;".
Proof. vm_compute. repeat split; congruence. Qed.

(** C9: the cleaned tag is empty exactly when the raw tag is empty, so
    the truth value of the raw tag (the test the script makes) is the
    truth value of the cleaned tag. *)
Theorem clean_tag_empty_iff (s : string) :
  (clean_tag s = "" <-> s = "")
  /\ Str.truthy (clean_tag s) = Str.truthy s.
Proof.
  split; [|apply clean_tag_truthy].
  rewrite <- !truthy_false_iff. now rewrite clean_tag_truthy.
Qed.

(** C8, counterexample: with a leading blank the trimmed form is a
    resource reference, yet the script returns the raw input. *)
Lemma clean_header_untrimmed_returns_raw :
  spec_trim " {x.FooBar}" = "{x.FooBar}"
  /\ clean_header (spec_trim " {x.FooBar}") = "Foo Bar"
  /\ clean_header " {x.FooBar}" = " {x.FooBar}"
  /\ clean_header " {x.FooBar}" <> readable "FooBar".
Proof. vm_compute. repeat split; congruence. Qed.

(** C8, amended: when the input itself, untrimmed, starts with an
    opening brace and ends with [.ident}], where [ident] is not empty and
    has neither dot nor closing brace, the result is [ident] after the
    two case-boundary rewritings and the underscore replacement. *)
Theorem clean_header_resource_reference (pre ident : string) :
  ident <> "" ->
  Str.all_chars Re.not_dot_brace ident = true ->
  clean_header ("{" ++ pre ++ "." ++ ident ++ "}") = readable ident.
Proof.
  intros Hne Hall. unfold clean_header.
  change (Str.truthy ("{" ++ pre ++ "." ++ ident ++ "}")) with true.
  cbn [negb].
  replace (Str.endswith ("{" ++ pre ++ "." ++ ident ++ "}") "}") with true.
  2:{ symmetry.
      replace ("{" ++ pre ++ "." ++ ident ++ "}")
        with (("{" ++ pre ++ "." ++ ident) ++ "}")
        by (now rewrite !app_assoc_str).
      apply endswith_app. }
  change (Str.startswith ("{" ++ pre ++ "." ++ ident ++ "}") "{") with true.
  cbn [andb].
  replace ("{" ++ pre ++ "." ++ ident ++ "}")
    with (("{" ++ pre) ++ "." ++ ident ++ "}")
    by (now rewrite !app_assoc_str).
  rewrite search_resource_pattern by assumption.
  reflexivity.
Qed.

Lemma clean_header_resource_reference_witness :
  clean_header ("{" ++ "x:Static wpf:Res" ++ "." ++ "Constants_Header" ++ "}")
  = readable "Constants_Header".
Proof.
  apply clean_header_resource_reference; [discriminate | reflexivity].
Defined.

(** ** Dicts *)

Section DictFacts.

Lemma dict_get_set_same (k : string) (v : value) (d : dict) :
  dict_get k (dict_set k v d) = Some v.
Proof.
  induction d as [|[k' v'] d IH]; simpl.
  - now rewrite String.eqb_refl.
  - destruct (String.eqb k k') eqn:E; simpl; now rewrite E.
Qed.

Lemma dict_get_set_other (k k' : string) (v : value) (d : dict) :
  k <> k' -> dict_get k (dict_set k' v d) = dict_get k d.
Proof.
  intros Hne. induction d as [|[k0 v0] d IH]; simpl.
  - apply String.eqb_neq in Hne. now rewrite Hne.
  - destruct (String.eqb k' k0) eqn:E; simpl.
    + apply String.eqb_eq in E; subst k0.
      apply String.eqb_neq in Hne. now rewrite Hne.
    + now rewrite IH.
Qed.

Lemma dict_set_not_nil (k : string) (v : value) (d : dict) :
  dict_set k v d <> [].
Proof.
  destruct d as [|[k' v'] d]; simpl; [discriminate|].
  destruct (String.eqb k k'); discriminate.
Qed.

Lemma mem_In (k : string) (l : list string) : mem k l = true <-> In k l.
Proof.
  unfold mem. rewrite existsb_exists. split.
  - intros [x [Hin Heq]]. apply String.eqb_eq in Heq. now subst.
  - intros Hin. exists k. split; [assumption | apply String.eqb_refl].
Qed.

Lemma mem_false_In (k : string) (l : list string) :
  mem k l = false <-> ~ In k l.
Proof.
  rewrite <- mem_In. destruct (mem k l); split; congruence.
Qed.

Lemma dict_get_none_iff (k : string) (d : dict) :
  dict_get k d = None <-> ~ In k (keys d).
Proof.
  induction d as [|[k' v'] d IH]; simpl.
  - tauto.
  - destruct (String.eqb_spec k k') as [->|Hne].
    + split; [discriminate | tauto].
    + rewrite IH. split; [intros H [E|Hin]; congruence | tauto].
Qed.

Lemma dict_get_In (k : string) (v : value) (d : dict) :
  dict_get k d = Some v -> In (k, v) d.
Proof.
  induction d as [|[k' v'] d IH]; simpl; [discriminate|].
  destruct (String.eqb_spec k k') as [->|Hne].
  - intros H; inversion H; subst. now left.
  - intros H. right. now apply IH.
Qed.

(** A key that is absent is appended. *)
Lemma dict_set_fresh (k : string) (v : value) (d : dict) :
  ~ In k (keys d) -> dict_set k v d = (d ++ [(k, v)])%list.
Proof.
  induction d as [|[k' v'] d IH]; simpl; intros Hnin; [reflexivity|].
  destruct (String.eqb_spec k k') as [->|Hne]; [tauto|].
  rewrite IH by tauto. reflexivity.
Qed.

Lemma keys_dict_set (k : string) (v : value) (d : dict) :
  keys (dict_set k v d) =
  if mem k (keys d) then keys d else (keys d ++ [k])%list.
Proof.
  induction d as [|[k' v'] d IH]; simpl; [reflexivity|].
  destruct (String.eqb k k') eqn:E; simpl; [reflexivity|].
  unfold keys in *. rewrite IH.
  now destruct (mem k (map fst d)).
Qed.

Lemma keys_dict_set_nodup (k : string) (v : value) (d : dict) :
  NoDup (keys d) -> NoDup (keys (dict_set k v d)).
Proof.
  intros Hnd. rewrite keys_dict_set.
  destruct (mem k (keys d)) eqn:E; [assumption|].
  apply mem_false_In in E.
  apply NoDup_app; [assumption | repeat constructor; simpl; tauto |].
  intros x Hx [<-|[]]. contradiction.
Qed.

Lemma dict_update_cons (d : dict) (k : string) (v : value) (es : dict) :
  dict_update d ((k, v) :: es) = dict_update (dict_set k v d) es.
Proof. reflexivity. Qed.

Lemma dict_update_snoc (d es : dict) (k : string) (v : value) :
  dict_update d (es ++ [(k, v)])%list = dict_set k v (dict_update d es).
Proof. unfold dict_update. now rewrite fold_left_app. Qed.

Lemma keys_dict_update_nodup (es d : dict) :
  NoDup (keys d) -> NoDup (keys (dict_update d es)).
Proof.
  revert d. induction es as [|[k v] es IH]; intros d Hnd; [assumption|].
  rewrite dict_update_cons. apply IH. now apply keys_dict_set_nodup.
Qed.

Lemma dict_update_not_nil (es d : dict) :
  d <> [] \/ es <> [] -> dict_update d es <> [].
Proof.
  revert d. induction es as [|[k v] es IH]; intros d H.
  - destruct H; [assumption | congruence].
  - rewrite dict_update_cons. apply IH. left. apply dict_set_not_nil.
Qed.

(** After an update, a key holds the value of its last assignment. *)
Lemma dict_get_update (k : string) (es d : dict) :
  dict_get k (dict_update d es) =
  match dict_get k (rev es) with
  | Some v => Some v
  | None => dict_get k d
  end.
Proof.
  induction es as [|[k' v'] es IH] using rev_ind; [reflexivity|].
  rewrite dict_update_snoc, rev_app_distr. simpl.
  destruct (String.eqb_spec k k') as [->|Hne].
  - apply dict_get_set_same.
  - now rewrite dict_get_set_other.
Qed.

Lemma dict_get_app (k : string) (d e : dict) :
  dict_get k (d ++ e)%list =
  match dict_get k d with
  | Some v => Some v
  | None => dict_get k e
  end.
Proof.
  induction d as [|[k' v'] d IH]; simpl; [reflexivity|].
  now destruct (String.eqb k k').
Qed.

Lemma dict_get_filter_differs (k k0 : string) (d : dict) :
  k <> k0 ->
  dict_get k (filter (fun kv => differs k0 (fst kv)) d) = dict_get k d.
Proof.
  intros Hne. induction d as [|[k' v'] d IH]; simpl; [reflexivity|].
  unfold differs at 1. simpl.
  destruct (String.eqb_spec k' k0) as [->|Hne']; simpl.
  - apply String.eqb_neq in Hne. now rewrite Hne.
  - now rewrite IH.
Qed.

Lemma keys_filter_differs (k0 : string) (d : dict) :
  keys (filter (fun kv => differs k0 (fst kv)) d)
  = filter (differs k0) (keys d).
Proof.
  induction d as [|[k' v'] d IH]; simpl; [reflexivity|].
  destruct (differs k0 k'); simpl; now rewrite IH.
Qed.

End DictFacts.

(** ** Key order and the mixed mapping *)

Section KeyOrder.

Lemma filter_all {A} (f : A -> bool) (l : list A) :
  (forall x, f x = true) -> filter f l = l.
Proof.
  intros H. induction l as [|x l IH]; simpl; [reflexivity|].
  now rewrite H, IH.
Qed.

Lemma mem_snoc (x k : string) (l : list string) :
  mem x (l ++ [k]) = mem x l || String.eqb x k.
Proof. unfold mem. rewrite existsb_app. simpl. now rewrite orb_false_r. Qed.

Lemma filter_absent_differs_known (k : string) (l X : list string) :
  mem k l = true ->
  filter (fun x => negb (mem x l)) (filter (differs k) X)
  = filter (fun x => negb (mem x l)) X.
Proof.
  intros Hk. induction X as [|x X IH]; simpl; [reflexivity|].
  unfold differs at 1.
  destruct (String.eqb_spec x k) as [->|Hne]; simpl.
  - now rewrite Hk, IH.
  - now rewrite IH.
Qed.

Lemma filter_absent_snoc (k : string) (l X : list string) :
  filter (fun x => negb (mem x (l ++ [k]))) X
  = filter (fun x => negb (mem x l)) (filter (differs k) X).
Proof.
  induction X as [|x X IH]; simpl; [reflexivity|].
  rewrite mem_snoc. unfold differs at 1.
  destruct (String.eqb x k); simpl.
  - now rewrite orb_true_r, IH.
  - now rewrite orb_false_r, IH.
Qed.

(** Keys keep the order of their first assignment. *)
Lemma keys_dict_update (es d : dict) :
  keys (dict_update d es) =
  (keys d ++ filter (fun k => negb (mem k (keys d)))
                    (first_occ (map fst es)))%list.
Proof.
  revert d. induction es as [|[k v] es IH]; intros d.
  - simpl. now rewrite app_nil_r.
  - rewrite dict_update_cons, IH, keys_dict_set.
    cbn [map fst first_occ filter].
    destruct (mem k (keys d)) eqn:E; cbn [negb].
    + now rewrite filter_absent_differs_known.
    + rewrite filter_absent_snoc, <- app_assoc. reflexivity.
Qed.

Lemma keys_dict_update_empty (es : dict) :
  keys (dict_update [] es) = first_occ (map fst es).
Proof.
  rewrite keys_dict_update. simpl. now apply filter_all.
Qed.

Lemma differs_same (k : string) : differs k k = false.
Proof. unfold differs. now rewrite String.eqb_refl. Qed.

Lemma differs_other (k k' : string) : k' <> k -> differs k k' = true.
Proof. unfold differs. intros H. apply String.eqb_neq in H. now rewrite H. Qed.

(** [result = {k: x}; result.update(S)] is the mapping literal
    [{k: x, ...S}]. *)
Lemma dict_update_singleton (k : string) (x : value) (S : dict) :
  NoDup (keys S) ->
  dict_update [(k, x)] S =
  (k, match dict_get k S with Some v => v | None => x end)
  :: filter (fun kv => differs k (fst kv)) S.
Proof.
  induction S as [|[k' v'] S IH] using rev_ind; intros Hnd; [reflexivity|].
  unfold keys in Hnd. rewrite map_app in Hnd. simpl in Hnd.
  assert (Hfresh : ~ In k' (keys S)).
  { apply NoDup_remove_2 in Hnd. now rewrite app_nil_r in Hnd. }
  apply NoDup_app_remove_r in Hnd.
  rewrite dict_update_snoc, IH by assumption.
  rewrite dict_get_app, filter_app. cbn [dict_set dict_get filter fst].
  destruct (String.eqb_spec k' k) as [->|Hne].
  - rewrite String.eqb_refl, differs_same.
    apply dict_get_none_iff in Hfresh. rewrite Hfresh.
    now rewrite app_nil_r.
  - assert (E : String.eqb k k' = false) by (apply String.eqb_neq; congruence).
    rewrite E, differs_other by assumption. f_equal.
    + now destruct (dict_get k S).
    + apply dict_set_fresh. rewrite keys_filter_differs.
      intros Hin. apply filter_In in Hin. tauto.
Qed.

End KeyOrder.

(** ** The classifier *)

Section ClassifierFacts.

Lemma parse_unfold (item : Element) :
  parse_menu_item_recursive item =
  classify_with item
    (map (fun c => (c, parse_menu_item_recursive c)) (children item)).
Proof. destruct item; reflexivity. Qed.

Lemma filter_paired {A B} (f : A -> bool) (g : A -> B) (l : list A) :
  filter (fun c => f (fst c)) (map (fun c => (c, g c)) l)
  = map (fun c => (c, g c)) (filter f l).
Proof.
  induction l as [|x l IH]; simpl; [reflexivity|].
  destruct (f x); simpl; now rewrite IH.
Qed.

Lemma is_nil_map {A B} (g : A -> B) (l : list A) :
  is_nil (map g l) = is_nil l.
Proof. now destruct l. Qed.

Lemma is_nil_false {A} (l : list A) : is_nil l = false <-> l <> [].
Proof. destruct l; simpl; split; congruence. Qed.

Lemma is_nil_true {A} (l : list A) : is_nil l = true <-> l = [].
Proof. destruct l; simpl; split; congruence. Qed.

Lemma parse_separator (item : Element) :
  is_separator item = true -> parse_menu_item_recursive item = None.
Proof. intros H. rewrite parse_unfold. unfold classify_with. now rewrite H. Qed.

Lemma parse_leaf (item : Element) :
  is_separator item = false -> leaf_test item = true ->
  parse_menu_item_recursive item = Some (leaf_action item).
Proof.
  intros Hs Hl. rewrite parse_unfold. unfold classify_with.
  now rewrite Hs, Hl.
Qed.

(** A node that is neither a separator nor a leaf item is decided by
    the two buckets of its children. *)
Lemma parse_container (item : Element) :
  is_separator item = false -> leaf_test item = false ->
  parse_menu_item_recursive item =
  if is_nil (menu_children item) then None
  else shape (leaf_items_of item) (subcategories_of item).
Proof.
  intros Hs Hl. rewrite parse_unfold. unfold classify_with.
  rewrite Hs, Hl.
  unfold leaf_items_of, subcategories_of, buckets, menu_children.
  rewrite filter_paired, is_nil_map.
  destruct (is_nil (filter is_menu_item (children item))); [reflexivity|].
  now destruct (fold_left bucket _ _).
Qed.

Lemma menu_child_is_menu_item (item c : Element) :
  In c (menu_children item) -> is_menu_item c = true.
Proof. unfold menu_children. intros H. apply filter_In in H. tauto. Qed.

Lemma parse_menu_leaf (c : Element) :
  is_menu_item c = true -> leaf_test c = true ->
  parse_menu_item_recursive c = Some (leaf_action c).
Proof.
  intros Hm Hl. apply parse_leaf; [|assumption].
  now apply menu_item_not_separator.
Qed.

(** The loop over the children, in closed form. *)
Lemma fold_bucket (l : list Element) :
  Forall (fun c => is_menu_item c = true) l ->
  forall L S,
    fold_left bucket (map (fun c => (c, parse_menu_item_recursive c)) l) (L, S)
    = ((L ++ map leaf_action (filter leaf_test l))%list,
       dict_update S (sub_entries l)).
Proof.
  induction 1 as [|c l Hc _ IH]; intros L S.
  - simpl. now rewrite app_nil_r.
  - cbn [map fold_left filter sub_entries flat_map].
    unfold bucket at 2, sub_entry. fold (child_key c).
    destruct (leaf_test c) eqn:El.
    + rewrite (parse_menu_leaf c Hc El), IH.
      cbn [map]. rewrite <- app_assoc. reflexivity.
    + destruct (parse_menu_item_recursive c) as [p|]; [|apply IH].
      destruct (Str.truthy (child_key c)); apply IH.
Qed.

Lemma menu_children_forall (item : Element) :
  Forall (fun c => is_menu_item c = true) (menu_children item).
Proof. apply Forall_forall. intros c. apply menu_child_is_menu_item. Qed.

Lemma buckets_closed_form (item : Element) :
  buckets item =
  (map leaf_action (filter leaf_test (menu_children item)),
   dict_update [] (sub_entries (menu_children item))).
Proof.
  unfold buckets. rewrite filter_paired.
  fold (menu_children item).
  now rewrite fold_bucket by apply menu_children_forall.
Qed.

Lemma leaf_items_closed_form (item : Element) :
  leaf_items_of item = map leaf_action (filter leaf_test (menu_children item)).
Proof. unfold leaf_items_of. now rewrite buckets_closed_form. Qed.

Lemma subcategories_closed_form (item : Element) :
  subcategories_of item = dict_update [] (sub_entries (menu_children item)).
Proof. unfold subcategories_of. now rewrite buckets_closed_form. Qed.

Lemma sub_entries_keys (l : list Element) :
  map fst (sub_entries l) = map child_key (filter is_subcategory l).
Proof.
  induction l as [|c l IH]; [reflexivity|].
  cbn [sub_entries flat_map filter]. rewrite map_app. fold (sub_entries l).
  rewrite IH. unfold sub_entry, is_subcategory.
  destruct (parse_menu_item_recursive c), (leaf_test c),
    (Str.truthy (child_key c)); reflexivity.
Qed.

Lemma sub_entries_In (k : string) (v : value) (l : list Element) :
  In (k, v) (sub_entries l) <->
  exists c, In c l /\ leaf_test c = false
            /\ parse_menu_item_recursive c = Some v
            /\ child_key c = k /\ Str.truthy k = true.
Proof.
  unfold sub_entries. rewrite in_flat_map. split.
  - intros [c [Hin H]]. exists c. split; [assumption|].
    unfold sub_entry in H.
    destruct (parse_menu_item_recursive c) as [p|]; [|contradiction].
    destruct (leaf_test c); [contradiction|].
    destruct (Str.truthy (child_key c)) eqn:E; [|contradiction].
    destruct H as [H|[]]. inversion H; subst. tauto.
  - intros [c (Hin & Hl & Hp & Hk & Ht)]. exists c. split; [assumption|].
    unfold sub_entry. rewrite Hp, Hl, Hk, Ht. now left.
Qed.

Lemma subcategories_nodup (item : Element) :
  NoDup (keys (subcategories_of item)).
Proof.
  rewrite subcategories_closed_form. apply keys_dict_update_nodup. constructor.
Qed.

Lemma shape_not_str (L : list value) (S : dict) (v : value) :
  shape L S = Some v -> is_str v = false.
Proof.
  unfold shape.
  destruct (is_nil L), (is_nil S); simpl; intros H; inversion H; reflexivity.
Qed.

(** The classifier never returns a bare string. *)
Lemma parse_not_str (item : Element) (v : value) :
  parse_menu_item_recursive item = Some v -> is_str v = false.
Proof.
  destruct (is_separator item) eqn:Hs.
  - rewrite parse_separator by assumption. discriminate.
  - destruct (leaf_test item) eqn:Hl.
    + rewrite parse_leaf by assumption. intros H. inversion H. reflexivity.
    + rewrite parse_container by assumption.
      destruct (is_nil (menu_children item)); [discriminate|].
      apply shape_not_str.
Qed.

End ClassifierFacts.

(** ** Duplicate subcategory keys *)

(** C1, counterexample: of two sibling groups with header [Sub], the
    subcategory map holds the classification of the second, not of the
    first. *)
Lemma duplicate_groups_keep_second :
  menu_children duplicate_groups = [first_sub; second_sub]
  /\ child_key first_sub = "Sub" /\ child_key second_sub = "Sub"
  /\ leaf_test first_sub = false /\ leaf_test second_sub = false
  /\ dict_get "Sub" (subcategories_of duplicate_groups)
     = parse_menu_item_recursive second_sub
  /\ dict_get "Sub" (subcategories_of duplicate_groups)
     <> parse_menu_item_recursive first_sub.
Proof. vm_compute. repeat split; congruence. Qed.

(** C1, amended: when several non-leaf, non-pruned children of a
    container have the same non-empty cleaned header, the subcategory map
    holds under that key the classification of the last of them: every
    later duplicate overwrites the value; the keys of the map stay in the
    order of their first occurrence, so the key keeps the position its
    first occurrence gave it. *)
Theorem subcategories_last_occurrence_wins
        (item : Element) (pre : list Element) (c : Element)
        (post : list Element) (p : value) :
  menu_children item = (pre ++ c :: post)%list ->
  leaf_test c = false ->
  parse_menu_item_recursive c = Some p ->
  child_key c <> "" ->
  (forall d, In d post -> is_subcategory d = true -> child_key d <> child_key c) ->
  dict_get (child_key c) (subcategories_of item) = Some p
  /\ keys (subcategories_of item)
     = first_occ (map child_key (filter is_subcategory (menu_children item))).
Proof.
  intros Hkids Hl Hp Hk Hpost. split.
  2:{ rewrite subcategories_closed_form, keys_dict_update_empty.
      now rewrite sub_entries_keys. }
  rewrite subcategories_closed_form, Hkids, dict_get_update.
  unfold sub_entries. rewrite flat_map_app. cbn [flat_map].
  fold (sub_entries pre). fold (sub_entries post).
  assert (Hc : sub_entry c = [(child_key c, p)]).
  { unfold sub_entry. rewrite Hp, Hl.
    apply truthy_true_iff in Hk. now rewrite Hk. }
  rewrite Hc, !rev_app_distr. cbn [rev app].
  rewrite <- app_assoc, dict_get_app.
  assert (Hnone : dict_get (child_key c) (rev (sub_entries post)) = None).
  { apply dict_get_none_iff. unfold keys.
    rewrite map_rev, <- in_rev, sub_entries_keys.
    intros Hin. apply in_map_iff in Hin as [d [Hd Hin]].
    apply filter_In in Hin as [Hin Hsub].
    now apply (Hpost d Hin Hsub). }
  rewrite Hnone. cbn [app dict_get]. now rewrite String.eqb_refl.
Qed.

Lemma subcategories_last_occurrence_wins_witness :
  dict_get (child_key second_sub) (subcategories_of duplicate_groups)
  = Some (VList [leaf_action (leaf_elem "Bar" "t2")])
  /\ keys (subcategories_of duplicate_groups)
     = first_occ (map child_key
                    (filter is_subcategory (menu_children duplicate_groups))).
Proof.
  apply (subcategories_last_occurrence_wins
           duplicate_groups [first_sub] second_sub []).
  - reflexivity.
  - reflexivity.
  - vm_compute. reflexivity.
  - vm_compute. discriminate.
  - intros d [].
Defined.

(** ** Leaf detection *)

Section LeafDetection.

Lemma leaf_action_is_leaf_action (item : Element) :
  is_leaf_action (leaf_action item) = true.
Proof.
  unfold leaf_action. now destruct (Str.truthy (get item "Icon" "")).
Qed.

Lemma is_leaf_action_head (k : string) (v : value) (d : dict) :
  is_leaf_action (VDict ((k, v) :: d)) = true ->
  k = "tag" /\ is_str v = true.
Proof.
  destruct v as [s|l|d']; simpl; try discriminate.
  destruct d as [|[k2 [s2|l2|d2]] rest]; try discriminate.
  intros H. apply andb_true_iff in H as [H _].
  apply andb_true_iff in H as [H _].
  apply String.eqb_eq in H. now split.
Qed.

Lemma dict_set_In (kv : string * value) (k : string) (v : value) (d : dict) :
  In kv (dict_set k v d) -> In kv d \/ kv = (k, v).
Proof.
  induction d as [|[k' v'] d IH]; simpl.
  - intros [<-|[]]. now right.
  - destruct (String.eqb_spec k k') as [->|Hne]; simpl.
    + intros [<-|H]; [now right | tauto].
    + intros [<-|H]; [tauto|]. apply IH in H. tauto.
Qed.

(** The entries of an updated dict come from the dict or from the
    update. *)
Lemma dict_update_In (kv : string * value) (es d : dict) :
  In kv (dict_update d es) -> In kv d \/ In kv es.
Proof.
  revert d. induction es as [|[k v] es IH]; intros d H; [now left|].
  rewrite dict_update_cons in H. apply IH in H as [H|H].
  - apply dict_set_In in H as [H|H]; [now left|].
    right. left. now rewrite H.
  - right. now right.
Qed.

(** Every entry of the subcategory map is the classification of a
    non-leaf child, filed under that child's cleaned header. *)
Lemma subcategories_values (item : Element) (k : string) (v : value) :
  In (k, v) (subcategories_of item) ->
  exists c, In c (menu_children item) /\ leaf_test c = false
            /\ child_key c = k
            /\ parse_menu_item_recursive c = Some v.
Proof.
  rewrite subcategories_closed_form. intros H.
  apply dict_update_In in H as [[]|H].
  apply sub_entries_In in H as [c H]. exists c. tauto.
Qed.

Lemma shape_not_leaf_action (item : Element) :
  returns_leaf_action
    (shape (leaf_items_of item) (subcategories_of item)) = false.
Proof.
  unfold shape.
  destruct (is_nil (leaf_items_of item)) eqn:EL,
           (is_nil (subcategories_of item)) eqn:ES;
    cbn [negb andb returns_leaf_action]; try reflexivity.
  - destruct (subcategories_of item) as [|[k v] S] eqn:E; [discriminate|].
    destruct (is_leaf_action (VDict ((k, v) :: S))) eqn:Hleaf; [|reflexivity].
    apply is_leaf_action_head in Hleaf as [_ Hstr].
    destruct (subcategories_values item k v) as [c (_ & _ & _ & Hp)];
      [rewrite E; now left|].
    apply parse_not_str in Hp. congruence.
  - rewrite dict_update_singleton by apply subcategories_nodup.
    match goal with |- ?b = false => destruct b eqn:Hleaf end;
      [|reflexivity].
    apply is_leaf_action_head in Hleaf as [Hk _]. discriminate.
Qed.

Lemma leaf_test_iff (item : Element) :
  leaf_test item = true <->
  get item "Click" "" = "Button_Click" /\ clean_tag (get item "Tag" "") <> "".
Proof.
  unfold leaf_test.
  rewrite andb_true_iff, String.eqb_eq, <- clean_tag_truthy, truthy_true_iff.
  reflexivity.
Qed.

(** Non-empty buckets come from a non-empty list of children. *)
Lemma container_has_children (item : Element) :
  leaf_items_of item <> [] \/ subcategories_of item <> [] ->
  is_nil (menu_children item) = false.
Proof.
  rewrite leaf_items_closed_form, subcategories_closed_form.
  intros H. apply is_nil_false. intros Hnil. rewrite Hnil in H.
  simpl in H. tauto.
Qed.

(** The result of a node with both buckets filled. *)
Lemma parse_mixed (item : Element) :
  is_separator item = false -> leaf_test item = false ->
  leaf_items_of item <> [] -> subcategories_of item <> [] ->
  parse_menu_item_recursive item =
  Some (VDict (mixed_result (leaf_items_of item) (subcategories_of item))).
Proof.
  intros Hs Hl HL HS. rewrite parse_container by assumption.
  rewrite container_has_children by tauto.
  unfold shape, mixed_result.
  apply is_nil_false in HL, HS. rewrite HL, HS. cbn [negb andb].
  now rewrite dict_update_singleton by apply subcategories_nodup.
Qed.

End LeafDetection.

(** C2, counterexample: a separator element with a [Click] handler equal
    to the action marker and a non-empty tag is pruned, not returned as a
    LeafAction. *)
Lemma separator_with_click_is_pruned :
  get clickable_separator "Click" "" = "Button_Click"
  /\ clean_tag (get clickable_separator "Tag" "") <> ""
  /\ parse_menu_item_recursive clickable_separator = None
  /\ returns_leaf_action (parse_menu_item_recursive clickable_separator) = false.
Proof. vm_compute. repeat split; congruence. Qed.

(** C2, amended: for every node that is not a separator, the classifier
    returns a LeafAction if and only if the click handler is the action
    marker [Button_Click] and the cleaned tag is not empty; the
    LeafAction is then the one built from the node's own attributes. *)
Theorem leaf_detection (item : Element) :
  is_separator item = false ->
  (returns_leaf_action (parse_menu_item_recursive item) = true <->
   get item "Click" "" = "Button_Click" /\ clean_tag (get item "Tag" "") <> "")
  /\ (get item "Click" "" = "Button_Click" /\ clean_tag (get item "Tag" "") <> ""
      -> parse_menu_item_recursive item = Some (leaf_action item)).
Proof.
  intros Hs. rewrite <- leaf_test_iff. split.
  - destruct (leaf_test item) eqn:Hl.
    + rewrite parse_leaf by assumption. cbn [returns_leaf_action].
      rewrite leaf_action_is_leaf_action. tauto.
    + rewrite parse_container by assumption.
      destruct (is_nil (menu_children item)).
      * cbn [returns_leaf_action]. split; discriminate.
      * rewrite shape_not_leaf_action. split; discriminate.
  - intros Hl. now apply parse_leaf.
Qed.

Lemma leaf_detection_witness :
  parse_menu_item_recursive (leaf_elem "Foo" "t1")
  = Some (leaf_action (leaf_elem "Foo" "t1")).
Proof.
  apply (leaf_detection (leaf_elem "Foo" "t1")).
  - reflexivity.
  - split; [reflexivity | vm_compute; discriminate].
Defined.

(** ** Shape of a container *)

(** C3: the script means to put the leaf items under [direct] (the
    comment of line 128), but a subcategory whose cleaned header is
    [direct] overwrites them.  On a node with the leaf item [Foo], the
    group [X] and the group [direct], the leaf items are [[Foo]] and the
    subcategory keys, in first-encountered order, [X] then [direct]; yet
    the result holds the group's items under [direct], not [[Foo]], and
    its subcategory keys come as [direct] then [X]: it is not the
    mapping of [direct] to the leaf items followed by the
    subcategories. *)
Theorem direct_collision_loses_leaf_items :
  is_separator direct_collision = false
  /\ leaf_test direct_collision = false
  /\ leaf_items_of direct_collision = [leaf_action (leaf_elem "Foo" "t1")]
  /\ keys (subcategories_of direct_collision) = ["X"; "direct"]
  /\ parse_menu_item_recursive direct_collision
     = Some (VDict [("direct", VList [leaf_action (leaf_elem "Bar" "t2")]);
                    ("X", VList [leaf_action (leaf_elem "A" "t3")])])
  /\ (forall R, parse_menu_item_recursive direct_collision = Some (VDict R) ->
                dict_get "direct" R
                <> Some (VList (leaf_items_of direct_collision))
                /\ keys R <> "direct" :: keys (subcategories_of direct_collision))
  /\ parse_menu_item_recursive direct_collision
     <> Some (VDict (spec_mixed (leaf_items_of direct_collision)
                                (subcategories_of direct_collision))).
Proof.
  repeat split; try (vm_compute; reflexivity).
  - vm_compute in H. inversion H; subst R. vm_compute. discriminate.
  - vm_compute in H. inversion H; subst R. vm_compute. discriminate.
  - vm_compute. discriminate.
Qed.

(** ** A subcategory named [direct] *)

(** C10, counterexample: a menu item with header [direct] and no
    children is a non-leaf child, but it is pruned: next to the leaf item
    [Foo] it leaves the result the bare list of [Foo]; nothing is
    overwritten and no leaf action is lost. *)
Lemma pruned_direct_child_keeps_leaf_items :
  is_separator direct_pruned = false
  /\ leaf_test direct_pruned = false
  /\ menu_children direct_pruned
     = [leaf_elem "Foo" "t1"; group_elem "direct" []]
  /\ leaf_test (leaf_elem "Foo" "t1") = true
  /\ leaf_test (group_elem "direct" []) = false
  /\ child_key (group_elem "direct" []) = "direct"
  /\ parse_menu_item_recursive (group_elem "direct" []) = None
  /\ parse_menu_item_recursive direct_pruned
     = Some (VList [leaf_action (leaf_elem "Foo" "t1")]).
Proof. vm_compute. repeat split; reflexivity. Qed.

(** C10, amended: in a container with a leaf child and a non-leaf,
    non-pruned child whose cleaned header is [direct], the value under
    [direct] in
    the result is the classification of a non-leaf child with that
    header: every key of the result holds what the subcategory map holds,
    and the non-empty list of leaf actions is not part of the result. *)
Theorem direct_subcategory_overwrites_leaf_items
        (item c1 c2 : Element) (p : value) :
  is_separator item = false ->
  leaf_test item = false ->
  In c1 (menu_children item) -> leaf_test c1 = true ->
  In c2 (menu_children item) -> leaf_test c2 = false ->
  parse_menu_item_recursive c2 = Some p ->
  child_key c2 = "direct" ->
  exists (R : dict) (v : value),
    parse_menu_item_recursive item = Some (VDict R)
    /\ In (leaf_action c1) (leaf_items_of item)
    /\ dict_get "direct" R = Some v
    /\ (exists c, In c (menu_children item) /\ leaf_test c = false
                  /\ child_key c = "direct"
                  /\ parse_menu_item_recursive c = Some v)
    /\ (forall k, dict_get k R = dict_get k (subcategories_of item))
    /\ keys R
       = "direct" :: filter (differs "direct") (keys (subcategories_of item)).
Proof.
  intros Hs Hl Hin1 Hleaf1 Hin2 Hleaf2 Hp Hk.
  assert (HL : In (leaf_action c1) (leaf_items_of item)).
  { rewrite leaf_items_closed_form. apply in_map. apply filter_In. tauto. }
  assert (HS : In ("direct", p) (sub_entries (menu_children item))).
  { apply sub_entries_In. exists c2. rewrite Hk. tauto. }
  destruct (dict_get "direct" (subcategories_of item)) as [v|] eqn:Hv.
  2:{ exfalso. rewrite subcategories_closed_form, dict_get_update in Hv.
      destruct (dict_get "direct" (rev (sub_entries (menu_children item))))
        eqn:E; [discriminate|].
      apply dict_get_none_iff in E. apply E. unfold keys.
      rewrite map_rev, <- in_rev. apply in_map_iff.
      exists ("direct", p). tauto. }
  exists (mixed_result (leaf_items_of item) (subcategories_of item)), v.
  split; [|split; [exact HL|split; [|split; [|split]]]].
  - apply parse_mixed; try assumption.
    + intros E. now rewrite E in HL.
    + intros E. now rewrite E in Hv.
  - unfold mixed_result. rewrite Hv. cbn [dict_get].
    now rewrite String.eqb_refl.
  - apply dict_get_In, subcategories_values in Hv. exact Hv.
  - intros k. unfold mixed_result. rewrite Hv. cbn [dict_get].
    destruct (String.eqb_spec k "direct") as [->|Hne]; [now rewrite Hv|].
    now apply dict_get_filter_differs.
  - unfold mixed_result, keys. cbn [map fst]. f_equal.
    apply keys_filter_differs.
Qed.

Lemma direct_subcategory_overwrites_leaf_items_witness :
  exists (R : dict) (v : value),
    parse_menu_item_recursive direct_clash = Some (VDict R)
    /\ In (leaf_action (leaf_elem "Foo" "t1")) (leaf_items_of direct_clash)
    /\ dict_get "direct" R = Some v
    /\ (exists c, In c (menu_children direct_clash) /\ leaf_test c = false
                  /\ child_key c = "direct"
                  /\ parse_menu_item_recursive c = Some v)
    /\ (forall k, dict_get k R = dict_get k (subcategories_of direct_clash))
    /\ keys R
       = "direct"
         :: filter (differs "direct") (keys (subcategories_of direct_clash)).
Proof.
  apply (direct_subcategory_overwrites_leaf_items
           direct_clash (leaf_elem "Foo" "t1")
           (group_elem "direct" [leaf_elem "Bar" "t2"])
           (VList [leaf_action (leaf_elem "Bar" "t2")])).
  - reflexivity.
  - reflexivity.
  - simpl. tauto.
  - reflexivity.
  - simpl. tauto.
  - reflexivity.
  - vm_compute. reflexivity.
  - vm_compute. reflexivity.
Defined.

(** ** The root-level pass *)

Section RootPass.

(** A round of the root loop leaves alone every key other than the
    section key of its element. *)
Lemma root_step_other_key (k : string) (result : dict) (d : Element) :
  (is_menu_item d = true -> child_key d <> k) ->
  dict_get k (root_step result d) = dict_get k result.
Proof.
  intros H. unfold root_step.
  destruct (is_menu_item d); [|reflexivity]. cbn [negb].
  destruct (Str.truthy (get d "Header" "")); [|reflexivity]. cbn [negb].
  destruct (parse_menu_item_recursive d) as [v|]; [|reflexivity].
  destruct (value_truthy v); [|reflexivity].
  apply dict_get_set_other. intros E. now apply H.
Qed.

Lemma root_loop_other_keys (k : string) (l : list Element) :
  (forall d, In d l -> is_menu_item d = true -> child_key d <> k) ->
  forall result,
    dict_get k (fold_left root_step l result) = dict_get k result.
Proof.
  induction l as [|d l IH]; intros H result; [reflexivity|].
  cbn [fold_left]. rewrite IH by (intros; apply H; simpl; tauto).
  apply root_step_other_key. apply H. now left.
Qed.

Lemma leaf_action_truthy (c : Element) : value_truthy (leaf_action c) = true.
Proof.
  unfold leaf_action. now destruct (Str.truthy (get c "Icon" "")).
Qed.

End RootPass.

(** C6: a menu-item child of the root with a non-empty header that
    passes the leaf test is classified as its bare LeafAction, and the
    root loop assigns this LeafAction to the cleaned header; the document
    holds it under that key unless a later section has the same key. *)
Theorem root_leaf_section (c : Element) :
  is_menu_item c = true ->
  get c "Header" "" <> "" ->
  leaf_test c = true ->
  parse_menu_item_recursive c = Some (leaf_action c)
  /\ is_leaf_action (leaf_action c) = true
  /\ (forall result,
        root_step result c = dict_set (child_key c) (leaf_action c) result)
  /\ (forall t a pre post,
        (forall d, In d post -> is_menu_item d = true ->
                   child_key d <> child_key c) ->
        dict_get (child_key c) (menu_document (mkElement t a (pre ++ c :: post)))
        = Some (leaf_action c)).
Proof.
  intros Hm Hh Hl.
  assert (Hp : parse_menu_item_recursive c = Some (leaf_action c))
    by now apply parse_menu_leaf.
  assert (Hstep : forall result,
             root_step result c = dict_set (child_key c) (leaf_action c) result).
  { intros result. unfold root_step. rewrite Hm, Hp, leaf_action_truthy.
    apply truthy_true_iff in Hh. now rewrite Hh. }
  repeat split; try assumption.
  - apply leaf_action_is_leaf_action.
  - intros t a pre post Hpost. unfold menu_document. cbn [children].
    rewrite fold_left_app. cbn [fold_left].
    rewrite root_loop_other_keys by assumption.
    rewrite Hstep. apply dict_get_set_same.
Qed.

Lemma root_leaf_section_witness :
  dict_get "Foo"
    (menu_document (mkElement "root" [] [leaf_elem "Foo" "t1"; section_elem]))
  = Some (leaf_action (leaf_elem "Foo" "t1")).
Proof.
  destruct (root_leaf_section (leaf_elem "Foo" "t1")) as (_ & _ & _ & H).
  - reflexivity.
  - vm_compute. discriminate.
  - reflexivity.
  - apply (H "root" [] [] [section_elem]).
    intros d [<-|[]] _. vm_compute. discriminate.
Defined.

(** ** Parse failure *)

(** C7: whatever the parser is, when it raises on the wrapped input
    (a [ParseError], or any other exception) the whole parse returns the
    empty dict; it never raises. *)
Theorem parse_failure_gives_empty_document
        (fromstring : string -> outcome Element)
        (xaml_content : string) (e : exn) :
  fromstring (wrap_content xaml_content) = inl e ->
  parse_xaml_insert_menu fromstring xaml_content = inr []
  /\ forall other, exists d, parse_xaml_insert_menu fromstring other = inr d.
Proof.
  intros H. split.
  - unfold parse_xaml_insert_menu, parse_body. rewrite H. now destruct e.
  - intros other. unfold parse_xaml_insert_menu, parse_body.
    destruct (fromstring (wrap_content other)) as [[m|m]|root]; eauto.
Qed.

Lemma parse_failure_gives_empty_document_witness :
  parse_xaml_insert_menu
    (fun s => if String.eqb s (wrap_content "<MenuItem")
              then inl (ParseError "not well-formed")
              else inr (mkElement "root" [] []))
    "<MenuItem"
  = inr [].
Proof.
  apply (parse_failure_gives_empty_document _ "<MenuItem"
           (ParseError "not well-formed")).
  vm_compute. reflexivity.
Defined.

(** ** End-to-end scenario *)

Example section_document :
  menu_document (mkElement "root" [] [section_elem])
  = [("Sec",
      VDict [("direct", VList [VDict [("tag", VStr "t1");
                                      ("description", VStr "Foo")]]);
             ("Sub", VList [VDict [("tag", VStr "t2");
                                   ("description", VStr "Bar")]])])].
Proof. vm_compute. reflexivity. Qed.

Example leaf_with_icon :
  parse_menu_item_recursive
    (mkElement "MenuItem"
       [("Header", "Foo"); ("Tag", "a&lt;b"); ("Click", "Button_Click");
        ("Icon", "f(x)")] [])
  = Some (VDict [("tag", VStr "a<b"); ("description", VStr "Foo");
                 ("label", VStr "f(x)")]).
Proof. vm_compute. reflexivity. Qed.

Example childless_group_is_pruned :
  parse_menu_item_recursive (group_elem "Empty" []) = None.
Proof. reflexivity. Qed.

(** * Further properties *)

(** ** Characters kept and dropped by the string primitives *)

Section CharFacts.

Lemma all_chars_app (q : ascii -> bool) (a b : string) :
  Str.all_chars q (a ++ b) = Str.all_chars q a && Str.all_chars q b.
Proof.
  induction a as [|c a IH]; simpl; [reflexivity|].
  now rewrite IH, andb_assoc.
Qed.

Lemma without_app (drop : ascii -> bool) (a b : string) :
  without drop (a ++ b) = without drop a ++ without drop b.
Proof.
  induction a as [|c a IH]; simpl; [reflexivity|].
  destruct (drop c); simpl; now rewrite IH.
Qed.

Lemma has_char_all_chars (a : ascii) (s : string) :
  has_char a s = negb (Str.all_chars (fun c => negb (Ascii.eqb c a)) s).
Proof.
  induction s as [|c s IH]; simpl; [reflexivity|].
  rewrite IH. now destruct (Ascii.eqb c a).
Qed.

Lemma strip_prefix_all_chars (q : ascii -> bool) (old s rest : string) :
  Str.strip_prefix old s = Some rest ->
  Str.all_chars q s = true -> Str.all_chars q rest = true.
Proof.
  revert s. induction old as [|a old IH]; intros s H Hs; simpl in H.
  - now inversion H; subst.
  - destruct s as [|b s]; [discriminate|].
    destruct (Ascii.eqb a b); [|discriminate].
    simpl in Hs. apply andb_true_iff in Hs as [_ Hs]. now apply (IH s).
Qed.

(** An occurrence of [old] starts with the first character of [old]. *)
Lemma strip_prefix_absent (a : ascii) (old s : string) :
  has_char a s = false -> Str.strip_prefix (String a old) s = None.
Proof.
  destruct s as [|c s]; simpl; [reflexivity|].
  intros H. apply orb_false_iff in H as [H _].
  rewrite Ascii.eqb_sym in H. now rewrite H.
Qed.

Lemma replace_fuel_absent (a : ascii) (old new : string) (n : nat) :
  forall s, has_char a s = false ->
            Str.replace_fuel n (String a old) new s = s.
Proof.
  induction n as [|n IH]; intros s H; [reflexivity|].
  cbn [Str.replace_fuel]. rewrite strip_prefix_absent by assumption.
  destruct s as [|c s]; [reflexivity|].
  simpl in H. apply orb_false_iff in H as [_ H]. now rewrite IH.
Qed.

Lemma replace_absent (a : ascii) (old new s : string) :
  has_char a s = false -> Str.replace (String a old) new s = s.
Proof. apply replace_fuel_absent. Qed.

Lemma replace_fuel_length (old new : string) (n : nat) :
  String.length new <= String.length old ->
  forall s, String.length (Str.replace_fuel n old new s) <= String.length s.
Proof.
  intros Hlen. induction n as [|n IH]; intros s; [simpl; lia|].
  cbn [Str.replace_fuel].
  destruct (Str.strip_prefix old s) as [rest|] eqn:E.
  - apply strip_prefix_length in E. rewrite length_app_str, E.
    specialize (IH rest). lia.
  - destruct s as [|c s]; simpl; [lia|]. specialize (IH s). lia.
Qed.

Lemma replace_fuel_all_chars (q : ascii -> bool) (old new : string) (n : nat) :
  Str.all_chars q new = true ->
  forall s, Str.all_chars q s = true ->
            Str.all_chars q (Str.replace_fuel n old new s) = true.
Proof.
  intros Hnew. induction n as [|n IH]; intros s Hs; [exact Hs|].
  cbn [Str.replace_fuel].
  destruct (Str.strip_prefix old s) as [rest|] eqn:E.
  - rewrite all_chars_app, Hnew. simpl. apply IH.
    now apply (strip_prefix_all_chars q old s).
  - destruct s as [|c s]; [reflexivity|].
    simpl in *. apply andb_true_iff in Hs as [Hc Hs].
    now rewrite Hc, IH.
Qed.

(** Replacing a single character by a text without it removes it. *)
Lemma replace_fuel_removes (a : ascii) (new : string) (n : nat) :
  has_char a new = false ->
  forall s, String.length s <= n ->
            has_char a (Str.replace_fuel n (String a "") new s) = false.
Proof.
  intros Hnew. induction n as [|n IH]; intros s Hlen.
  - destruct s; [reflexivity | simpl in Hlen; lia].
  - cbn [Str.replace_fuel]. destruct s as [|c s]; [reflexivity|].
    cbn [Str.strip_prefix]. simpl in Hlen.
    destruct (Ascii.eqb a c) eqn:E.
    + rewrite has_char_all_chars, all_chars_app, negb_andb.
      rewrite <- !has_char_all_chars, Hnew, IH by lia. reflexivity.
    + cbn [has_char]. rewrite Ascii.eqb_sym, E. apply IH. lia.
Qed.

(** Turning every [a] into [b] and dropping [b] is dropping both. *)
Lemma replace_fuel_without (a b : ascii) (n : nat) :
  forall s,
    String.length s <= n ->
    without (fun c => Ascii.eqb c b)
            (Str.replace_fuel n (String a "") (String b "") s)
    = without (fun c => Ascii.eqb c b || Ascii.eqb c a) s.
Proof.
  induction n as [|n IH]; intros s Hlen.
  - destruct s; [reflexivity | simpl in Hlen; lia].
  - cbn [Str.replace_fuel]. destruct s as [|c s]; [reflexivity|].
    cbn [Str.strip_prefix]. simpl in Hlen.
    destruct (Ascii.eqb a c) eqn:E.
    + cbn [append without]. rewrite Ascii.eqb_refl, IH by lia.
      rewrite (Ascii.eqb_sym c a), E, orb_true_r. reflexivity.
    + cbn [without]. rewrite (Ascii.eqb_sym c a), E, orb_false_r.
      rewrite IH by lia. reflexivity.
Qed.

End CharFacts.

(** ** What a match captures *)

Section CaptureFacts.

Import Re.

Lemma capture_all_chars (q : ascii -> bool) (g : group) (c : ascii)
      (caps : captures) :
  q c = true ->
  Str.all_chars q (group1 caps) = true ->
  Str.all_chars q (group2 caps) = true ->
  Str.all_chars q (group1 (capture g c caps)) = true
  /\ Str.all_chars q (group2 (capture g c caps)) = true.
Proof.
  intros Hc H1 H2. destruct g; simpl; rewrite ?all_chars_app; simpl;
    rewrite ?H1, ?H2, ?Hc; auto.
Qed.

(** Captured text and the unconsumed rest are made of characters of the
    input. *)
Lemma match_here_all_chars (q : ascii -> bool) (p : pattern) :
  forall s caps m rest,
    Str.all_chars q s = true ->
    Str.all_chars q (group1 caps) = true ->
    Str.all_chars q (group2 caps) = true ->
    match_here p s caps = Some (m, rest) ->
    Str.all_chars q (group1 m) = true
    /\ Str.all_chars q (group2 m) = true
    /\ Str.all_chars q rest = true.
Proof.
  induction p as [|[g a] p IH]; intros s caps m rest Hs H1 H2 H.
  - simpl in H. inversion H; subst. auto.
  - destruct a as [cls|cls|].
    + destruct s as [|c t]; simpl in H; [discriminate|].
      destruct (cls c); [|discriminate].
      simpl in Hs. apply andb_true_iff in Hs as [Hc Ht].
      destruct (capture_all_chars q g c caps Hc H1 H2) as [G1' G2'].
      now apply (IH t (capture g c caps)).
    + revert caps H1 H2 H. induction s as [|c t IHs]; intros caps H1 H2 H.
      * rewrite match_here_many_empty in H. discriminate.
      * rewrite match_here_many in H.
        destruct (cls c); [|discriminate].
        simpl in Hs. apply andb_true_iff in Hs as [Hc Ht].
        destruct (capture_all_chars q g c caps Hc H1 H2) as [G1' G2'].
        destruct (match_here ((g, Many1 cls) :: p) t (capture g c caps))
          as [r|] eqn:E.
        -- inversion H; subst. now apply (IHs Ht (capture g c caps)).
        -- now apply (IH t (capture g c caps)).
    + simpl in H. destruct (at_end s); [|discriminate].
      now apply (IH s caps).
Qed.

(** Rewriting with a pattern only adds blanks to the characters of the
    input. *)
Lemma sub_fuel_all_chars (q : ascii -> bool) (p : pattern) (n : nat) :
  q " "%char = true ->
  forall s, Str.all_chars q s = true ->
            Str.all_chars q (sub_fuel n p s) = true.
Proof.
  intros Hq. induction n as [|n IH]; intros s Hs; [exact Hs|].
  cbn [sub_fuel].
  destruct (match_here p s no_captures) as [[m rest]|] eqn:E.
  - apply (match_here_all_chars q) in E as (G1' & G2' & Hr);
      [|assumption|reflexivity|reflexivity].
    rewrite !all_chars_app, G1', G2'. simpl. rewrite Hq. simpl.
    now apply IH.
  - destruct s as [|c t]; [reflexivity|].
    simpl in *. apply andb_true_iff in Hs as [Hc Ht].
    now rewrite Hc, IH.
Qed.

Lemma truthy_app_r (a b : string) :
  Str.truthy b = true -> Str.truthy (a ++ b) = true.
Proof. destruct a; simpl; congruence. Qed.

Lemma sub_truthy (p : pattern) (s : string) :
  Str.truthy s = true -> Str.truthy (sub p s) = true.
Proof.
  intros Hs. destruct s as [|c t]; [discriminate|].
  unfold sub. cbn [String.length sub_fuel].
  destruct (match_here p (String c t) no_captures) as [[m rest]|].
  - now apply truthy_app_r.
  - reflexivity.
Qed.

Lemma tail_pattern_captures_nothing (s : string) (caps m : captures)
      (rest : string) :
  match_here tail_pattern s caps = Some (m, rest) -> m = caps.
Proof.
  unfold tail_pattern. destruct s as [|c t]; simpl; [discriminate|].
  destruct (is_char "}" c); [|discriminate].
  destruct (at_end t); [|discriminate].
  intros H. now inversion H.
Qed.

(** The identifier group is a non-empty run without dot or closing
    brace. *)
Lemma ident_pattern_captures (s : string) :
  forall caps m rest,
    match_here ident_pattern s caps = Some (m, rest) ->
    exists a, a <> "" /\ Str.all_chars not_dot_brace a = true
              /\ group1 m = group1 caps ++ a.
Proof.
  unfold ident_pattern.
  induction s as [|c t IH]; intros caps m rest H.
  - rewrite match_here_many_empty in H. discriminate.
  - rewrite match_here_many in H.
    destruct (not_dot_brace c) eqn:Hc; [|discriminate].
    destruct (match_here ((G1, Many1 not_dot_brace) :: tail_pattern) t
                (capture G1 c caps)) as [r|] eqn:E.
    + inversion H; subst r. apply IH in E as (a & Ha & Hall & Hg).
      exists (String c a). split; [discriminate | split].
      * simpl. now rewrite Hc, Hall.
      * rewrite Hg. cbn [capture group1]. now rewrite app_assoc_str.
    + apply tail_pattern_captures_nothing in H. subst m.
      exists (String c ""). split; [discriminate | split; [|reflexivity]].
      simpl. now rewrite Hc.
Qed.

Lemma search_some (p : pattern) (s : string) (m : captures) :
  search p s = Some m ->
  exists s' rest, match_here p s' no_captures = Some (m, rest).
Proof.
  induction s as [|c t IH]; cbn [search];
    destruct (match_here p _ no_captures) as [[m' rest]|] eqn:E; intros H.
  - inversion H; subst. eauto.
  - discriminate.
  - inversion H; subst. eauto.
  - now apply IH.
Qed.

Lemma search_resource_group (h : string) (m : captures) :
  search resource_pattern h = Some m ->
  group1 m <> "" /\ Str.all_chars not_dot_brace (group1 m) = true.
Proof.
  intros H. apply search_some in H as (s & rest & H).
  destruct s as [|c t]; [discriminate|].
  cbn [resource_pattern match_here] in H.
  destruct (is_char "." c); [|discriminate].
  apply (ident_pattern_captures t) in H as (a & Ha & Hall & Hg).
  simpl in Hg. subst a. now split.
Qed.

(** Without a dot the resource pattern matches nowhere. *)
Lemma search_resource_no_dot (h : string) :
  has_char "."%char h = false -> search resource_pattern h = None.
Proof.
  induction h as [|c t IH]; intros H; [reflexivity|].
  simpl in H. apply orb_false_iff in H as [Hc Ht].
  cbn [search resource_pattern match_here]. unfold is_char at 1.
  rewrite Hc. now apply IH.
Qed.

(** The two groups of the case-boundary patterns cover the match. *)
Lemma camel_pattern_covers (s : string) (m : captures) (rest : string) :
  match_here camel_pattern s no_captures = Some (m, rest) ->
  s = group1 m ++ group2 m ++ rest.
Proof.
  destruct s as [|c [|d t]]; simpl.
  - discriminate.
  - destruct (lower_or_digit c); discriminate.
  - destruct (lower_or_digit c); [|discriminate].
    destruct (upper d); [|discriminate].
    intros H. inversion H. reflexivity.
Qed.

Lemma acronym_pattern_covers_from (s : string) :
  forall caps m rest,
    match_here acronym_pattern s caps = Some (m, rest) ->
    exists a b, s = a ++ b ++ rest
                /\ group1 m = group1 caps ++ a
                /\ group2 m = group2 caps ++ b.
Proof.
  unfold acronym_pattern.
  induction s as [|c t IH]; intros caps m rest H.
  - rewrite match_here_many_empty in H. discriminate.
  - rewrite match_here_many in H.
    destruct (upper c); [|discriminate].
    match type of H with
    | match ?X with _ => _ end = _ => destruct X as [r|] eqn:E
    end.
    + inversion H; subst r. apply IH in E as (a & b & Hs & H1 & H2).
      exists (String c a), b. repeat split.
      * simpl. now rewrite <- Hs.
      * rewrite H1. cbn [capture group1]. now rewrite app_assoc_str.
      * rewrite H2. reflexivity.
    + destruct t as [|d [|e t']]; simpl in H.
      * discriminate.
      * destruct (upper d); discriminate.
      * destruct (upper d); [|discriminate].
        destruct (lower e); [|discriminate].
        inversion H; subst. exists (String c ""), (String d (String e "")).
        repeat split. simpl. now rewrite app_assoc_str.
Qed.

Lemma acronym_pattern_covers (s : string) (m : captures) (rest : string) :
  match_here acronym_pattern s no_captures = Some (m, rest) ->
  s = group1 m ++ group2 m ++ rest.
Proof.
  intros H. apply acronym_pattern_covers_from in H as (a & b & Hs & H1 & H2).
  simpl in H1, H2. now subst.
Qed.

(** When the groups cover every match, the rewriting changes nothing but
    blanks. *)
Lemma sub_fuel_without (drop : ascii -> bool) (p : pattern) :
  drop " "%char = true ->
  (forall s m rest, match_here p s no_captures = Some (m, rest) ->
                    s = group1 m ++ group2 m ++ rest) ->
  forall n s, without drop (sub_fuel n p s) = without drop s.
Proof.
  intros Hdrop Hcover. induction n as [|n IH]; intros s; [reflexivity|].
  cbn [sub_fuel].
  destruct (match_here p s no_captures) as [[m rest]|] eqn:E.
  - apply Hcover in E. rewrite E.
    rewrite !without_app, IH. cbn [without]. rewrite Hdrop. reflexivity.
  - destruct s as [|c t]; [reflexivity|].
    cbn [without]. now rewrite IH.
Qed.

End CaptureFacts.

(** ** More on the text normalizer *)

Section NormalizerFacts.

Lemma all_chars_impl (q r : ascii -> bool) (s : string) :
  (forall c, q c = true -> r c = true) ->
  Str.all_chars q s = true -> Str.all_chars r s = true.
Proof.
  intros Himp. induction s as [|c s IH]; simpl; [reflexivity|].
  intros H. apply andb_true_iff in H as [Hc Hs].
  now rewrite (Himp c Hc), IH.
Qed.

Lemma all_chars_last (q : ascii -> bool) (s : string) (c : ascii) :
  Str.all_chars q s = true -> Str.last_char s = Some c -> q c = true.
Proof.
  induction s as [|d s IH]; [discriminate|].
  intros H Hl. simpl in H. apply andb_true_iff in H as [Hd Hs].
  destruct s as [|e s].
  - simpl in Hl. now inversion Hl; subst.
  - now apply IH.
Qed.

Lemma replace_length (old new s : string) :
  String.length new <= String.length old ->
  String.length (Str.replace old new s) <= String.length s.
Proof. intros H. now apply replace_fuel_length. Qed.

Lemma readable_truthy (ident : string) :
  Str.truthy ident = true -> Str.truthy (readable ident) = true.
Proof.
  intros H. unfold readable.
  apply replace_truthy; [reflexivity|]. now do 2 apply sub_truthy.
Qed.

Lemma readable_all_chars (q : ascii -> bool) (ident : string) :
  q " "%char = true ->
  Str.all_chars q ident = true -> Str.all_chars q (readable ident) = true.
Proof.
  intros Hq H. unfold readable, Str.replace, Re.sub.
  apply replace_fuel_all_chars; [simpl; now rewrite Hq|].
  apply sub_fuel_all_chars; [exact Hq|].
  apply sub_fuel_all_chars; [exact Hq|]. exact H.
Qed.

Lemma readable_no_underscore (ident : string) :
  has_char "_"%char (readable ident) = false.
Proof.
  unfold readable, Str.replace. now apply replace_fuel_removes.
Qed.

Lemma not_dot_brace_no_dot (c : ascii) :
  Re.not_dot_brace c = true -> negb (Ascii.eqb c "."%char) = true.
Proof. unfold Re.not_dot_brace. intros H. now apply andb_true_iff in H. Qed.

Lemma not_dot_brace_no_brace (c : ascii) :
  Re.not_dot_brace c = true -> negb (Ascii.eqb c "}"%char) = true.
Proof. unfold Re.not_dot_brace. intros H. now apply andb_true_iff in H. Qed.

(** The readable form of an identifier has no dot, no closing brace and
    no underscore. *)
Lemma readable_clean (ident : string) :
  Str.all_chars Re.not_dot_brace ident = true ->
  has_char "."%char (readable ident) = false
  /\ has_char "}"%char (readable ident) = false
  /\ has_char "_"%char (readable ident) = false.
Proof.
  intros H. rewrite !has_char_all_chars.
  rewrite (readable_all_chars (fun c => negb (Ascii.eqb c "."%char)));
    [|reflexivity|now apply (all_chars_impl _ _ _ not_dot_brace_no_dot)].
  rewrite (readable_all_chars (fun c => negb (Ascii.eqb c "}"%char)));
    [|reflexivity|now apply (all_chars_impl _ _ _ not_dot_brace_no_brace)].
  rewrite <- has_char_all_chars, readable_no_underscore. auto.
Qed.

Lemma no_brace_not_endswith (s : string) :
  has_char "}"%char s = false -> Str.endswith s "}" = false.
Proof.
  intros H. destruct (Str.endswith s "}") eqn:E; [|reflexivity].
  apply endswith_last_char in E; [|discriminate]. simpl in E.
  rewrite has_char_all_chars in H. apply negb_false_iff in H.
  apply (all_chars_last _ _ _ H) in E. discriminate.
Qed.

(** The three outcomes of [clean_header]. *)
Lemma clean_header_cases (h : string) :
  clean_header h = h
  \/ exists m, Re.search resource_pattern h = Some m
               /\ clean_header h = readable (Re.group1 m).
Proof.
  unfold clean_header. destruct h as [|c t]; [now left|]. cbn [Str.truthy negb].
  destruct (Str.startswith (String c t) "{" && Str.endswith (String c t) "}");
    [|now left].
  destruct (Re.search resource_pattern (String c t)) as [m|] eqn:E;
    [right; eauto | now left].
Qed.

End NormalizerFacts.

(** X1: a tag without ampersand is returned as it is. *)
Theorem clean_tag_without_ampersand (s : string) :
  has_char "&"%char s = false -> clean_tag s = s.
Proof.
  intros H. unfold clean_tag. destruct (Str.truthy s) eqn:E; cbn [negb].
  - rewrite (replace_absent "&" "lt;" "<" s H).
    rewrite (replace_absent "&" "gt;" ">" s H).
    rewrite (replace_absent "&" "amp;" "&" s H).
    rewrite (replace_absent "&" "quot;" (String Str.dquote "") s H).
    apply (replace_absent "&" "apos;" (String Str.squote "") s H).
  - apply truthy_false_iff in E. now subst.
Qed.

Lemma clean_tag_without_ampersand_witness :
  clean_tag "a<b, x_1 > 0" = "a<b, x_1 > 0".
Proof. apply clean_tag_without_ampersand. reflexivity. Defined.

(** X2: unescaping never makes a tag longer. *)
Theorem clean_tag_never_longer (s : string) :
  String.length (clean_tag s) <= String.length s.
Proof.
  unfold clean_tag. destruct (Str.truthy s); cbn [negb]; [|simpl; lia].
  repeat (etransitivity; [apply replace_length; simpl; lia|]).
  reflexivity.
Qed.

(** X3: the cleaned header is empty exactly when the raw header is. *)
Theorem clean_header_empty_iff (h : string) :
  Str.truthy (clean_header h) = Str.truthy h
  /\ (clean_header h = "" <-> h = "").
Proof.
  assert (H : Str.truthy (clean_header h) = Str.truthy h).
  { destruct h as [|c t]; [reflexivity|].
    destruct (clean_header_cases (String c t)) as [->|(m & Hm & ->)];
      [reflexivity|].
    apply search_resource_group in Hm as [Hne _].
    apply truthy_true_iff in Hne. now rewrite readable_truthy. }
  split; [exact H|]. rewrite <- !truthy_false_iff. now rewrite H.
Qed.

(** X4: a header without any dot is returned unchanged, braces
    included. *)
Theorem clean_header_without_dot (h : string) :
  has_char "."%char h = false -> clean_header h = h.
Proof.
  intros H. destruct (clean_header_cases h) as [E|(m & Hm & _)]; [exact E|].
  rewrite search_resource_no_dot in Hm by assumption. discriminate.
Qed.

Lemma clean_header_without_dot_witness :
  clean_header "{Binding FooBar}" = "{Binding FooBar}".
Proof. apply clean_header_without_dot. reflexivity. Defined.

(** X5: cleaning a cleaned header changes nothing. *)
Theorem clean_header_idempotent (h : string) :
  clean_header (clean_header h) = clean_header h.
Proof.
  destruct (clean_header_cases h) as [E|(m & Hm & ->)]; [now rewrite !E|].
  apply search_resource_group in Hm as [_ Hall].
  destruct (readable_clean _ Hall) as (_ & Hbrace & _).
  unfold clean_header.
  destruct (Str.truthy (readable (Re.group1 m))) eqn:E; cbn [negb].
  - now rewrite no_brace_not_endswith, andb_false_r.
  - apply truthy_false_iff in E. now rewrite E.
Qed.

(** X6: the header is either returned unchanged or turned into a text
    without dot, closing brace and underscore. *)
Theorem clean_header_unchanged_or_clean (h : string) :
  clean_header h = h
  \/ (has_char "."%char (clean_header h) = false
      /\ has_char "}"%char (clean_header h) = false
      /\ has_char "_"%char (clean_header h) = false).
Proof.
  destruct (clean_header_cases h) as [E|(m & Hm & ->)]; [now left|].
  right. apply search_resource_group in Hm as [_ Hall].
  now apply readable_clean.
Qed.

(** X7: the rewriting of an identifier loses no character: up to blanks,
    the result is the identifier without its underscores. *)
Theorem readable_keeps_characters (ident : string) :
  without is_blank (readable ident) = without is_blank_or_underscore ident.
Proof.
  unfold readable, Str.replace, is_blank.
  rewrite replace_fuel_without by lia.
  unfold Re.sub. fold is_blank_or_underscore.
  rewrite (sub_fuel_without _ _ eq_refl camel_pattern_covers).
  now rewrite (sub_fuel_without _ _ eq_refl acronym_pattern_covers).
Qed.

(** ** More on the classifier *)

Section ResultFacts.

(** Induction on an element with the property known for every child. *)
Lemma Element_children_ind (P : Element -> Prop) :
  (forall t a kids, Forall P kids -> P (mkElement t a kids)) ->
  forall e, P e.
Proof.
  intros H. fix IH 1. intros [t a kids]. apply H.
  induction kids as [|k ks IHks]; constructor; [apply IH | exact IHks].
Qed.

(** The result of a node that is neither separator nor leaf item, from
    the two buckets in closed form; with no menu-item child both buckets
    are empty. *)
Lemma container_result (item : Element) :
  is_separator item = false -> leaf_test item = false ->
  parse_menu_item_recursive item =
  shape (map leaf_action (filter leaf_test (menu_children item)))
        (dict_update [] (sub_entries (menu_children item))).
Proof.
  intros Hs Hl. rewrite parse_container by assumption.
  rewrite leaf_items_closed_form, subcategories_closed_form.
  destruct (menu_children item); reflexivity.
Qed.

Lemma shape_none (L : list value) (S : dict) :
  shape L S = None <-> L = [] /\ S = [].
Proof.
  unfold shape. destruct L, S; simpl; split; intros H;
    try discriminate; try tauto; destruct H; discriminate.
Qed.

Lemma shape_truthy (L : list value) (S : dict) (v : value) :
  shape L S = Some v -> value_truthy v = true.
Proof.
  unfold shape. destruct (is_nil L) eqn:EL, (is_nil S) eqn:ES; simpl;
    intros H; inversion H; subst; simpl; rewrite ?EL, ?ES; try reflexivity.
  apply negb_true_iff, is_nil_false, dict_update_not_nil. left. discriminate.
Qed.

(** A result is never an empty list or dict. *)
Lemma parse_truthy (item : Element) (v : value) :
  parse_menu_item_recursive item = Some v -> value_truthy v = true.
Proof.
  destruct (is_separator item) eqn:Hs.
  - rewrite parse_separator by assumption. discriminate.
  - destruct (leaf_test item) eqn:Hl.
    + rewrite parse_leaf by assumption. intros H. inversion H.
      apply leaf_action_truthy.
    + rewrite container_result by assumption. apply shape_truthy.
Qed.

Lemma sub_entry_contributes_nothing (c : Element) :
  is_menu_item c = true ->
  (contributes_nothing c = true <-> leaf_test c = false /\ sub_entry c = []).
Proof.
  intros Hm. unfold contributes_nothing, sub_entry. rewrite Hm. cbn [negb orb].
  destruct (leaf_test c) eqn:Hl.
  - rewrite (parse_menu_leaf c Hm Hl). simpl. split; [discriminate|].
    intros [H _]. discriminate.
  - destruct (parse_menu_item_recursive c) as [p|]; simpl.
    + destruct (Str.truthy (child_key c)); simpl; split; try tauto;
        try discriminate. intros [_ H]. discriminate.
    + tauto.
Qed.

Lemma flat_map_nil {A B} (f : A -> list B) (l : list A) :
  flat_map f l = [] <-> forall x, In x l -> f x = [].
Proof.
  induction l as [|x l IH]; simpl; [tauto|]. split.
  - intros H. apply app_eq_nil in H as [Hx Hl].
    intros y [<-|Hy]; [assumption | now apply IH].
  - intros H. rewrite (H x) by now left. apply IH. intros y Hy. apply H. tauto.
Qed.

Lemma filter_nil {A} (f : A -> bool) (l : list A) :
  filter f l = [] <-> forall x, In x l -> f x = false.
Proof.
  induction l as [|x l IH]; simpl; [tauto|]. split.
  - destruct (f x) eqn:E; [discriminate|].
    intros H y [<-|Hy]; [assumption | now apply IH].
  - intros H. rewrite (H x) by now left. apply IH. intros y Hy. apply H. tauto.
Qed.

Lemma dict_update_nil_iff (es : dict) : dict_update [] es = [] <-> es = [].
Proof.
  split; [|now intros ->].
  intros H. destruct es as [|e es]; [reflexivity|].
  exfalso. revert H. apply dict_update_not_nil. right. discriminate.
Qed.

Lemma unique_keys_NoDup (l : list string) :
  unique_keys l = true <-> NoDup l.
Proof.
  induction l as [|k l IH]; simpl.
  - split; [constructor | reflexivity].
  - rewrite andb_true_iff, negb_true_iff, mem_false_In, IH. split.
    + intros [H1 H2]. now constructor.
    + intros H. inversion H; subst. tauto.
Qed.

Lemma leaf_actions_all (l : list Element) :
  forallb is_leaf_action (map leaf_action l) = true.
Proof.
  induction l as [|c l IH]; [reflexivity|].
  cbn [map forallb]. now rewrite leaf_action_is_leaf_action, IH.
Qed.

Lemma is_category_dict (d : dict) :
  d <> [] -> NoDup (keys d) ->
  (forall kv, In kv d -> entry_ok kv = true) ->
  is_category (VDict d) = true.
Proof.
  intros Hne Hnd Hall. cbn [is_category].
  apply is_nil_false in Hne. rewrite Hne.
  apply unique_keys_NoDup in Hnd. unfold keys in Hnd. rewrite Hnd.
  cbn [negb andb]. apply forallb_forall. exact Hall.
Qed.

Lemma mixed_result_category (L : list value) (S : dict) :
  L <> [] -> forallb is_leaf_action L = true ->
  NoDup (keys S) ->
  (forall kv, In kv S -> entry_ok kv = true) ->
  is_category (VDict (mixed_result L S)) = true.
Proof.
  intros HL Hleaf Hnd Hall. apply is_category_dict.
  - discriminate.
  - unfold mixed_result, keys. cbn [map fst].
    fold (keys (filter (fun kv => differs "direct" (fst kv)) S)).
    rewrite keys_filter_differs. constructor.
    + intros Hin. apply filter_In in Hin as [_ Hd].
      now rewrite differs_same in Hd.
    + now apply NoDup_filter.
  - unfold mixed_result. intros kv [<-|Hin].
    + destruct (dict_get "direct" S) as [x|] eqn:E.
      * apply dict_get_In in E. apply (Hall _ E).
      * cbn [entry_ok Str.truthy is_category andb].
        apply is_nil_false in HL. now rewrite HL, Hleaf.
    + apply filter_In in Hin as [Hin _]. now apply Hall.
Qed.

End ResultFacts.

(** X8: the classifier never returns an empty list or an empty dict, so
    the truth test the root loop makes on a result is the test for
    [None]. *)
Theorem result_truthy_iff_some (item : Element) :
  result_truthy (parse_menu_item_recursive item)
  = is_some (parse_menu_item_recursive item).
Proof.
  destruct (parse_menu_item_recursive item) as [v|] eqn:E; [|reflexivity].
  simpl. now apply (parse_truthy item).
Qed.

(** X9: a node is pruned exactly when it is a separator, or it fails
    the leaf test and each of its menu-item children is itself pruned or
    is a group with an empty cleaned header. *)
Theorem pruned_iff (item : Element) :
  parse_menu_item_recursive item = None <->
  is_separator item = true
  \/ (leaf_test item = false
      /\ forall c, In c (menu_children item) -> contributes_nothing c = true).
Proof.
  destruct (is_separator item) eqn:Hs.
  - rewrite parse_separator by assumption. tauto.
  - destruct (leaf_test item) eqn:Hl.
    + rewrite parse_leaf by assumption. split; [discriminate|].
      intros [H|[H _]]; discriminate.
    + rewrite container_result, shape_none by assumption.
      rewrite dict_update_nil_iff. unfold sub_entries, dict.
      rewrite flat_map_nil.
      split.
      * intros [HL HS]. right. split; [reflexivity|]. intros c Hc.
        apply sub_entry_contributes_nothing;
          [now apply (menu_child_is_menu_item item)|].
        split; [|now apply HS].
        destruct (leaf_test c) eqn:E; [|reflexivity].
        exfalso. assert (Hin : In c (filter leaf_test (menu_children item)))
          by (apply filter_In; tauto).
        apply (in_map leaf_action) in Hin. rewrite HL in Hin. destruct Hin.
      * intros [H|[_ H]]; [discriminate|].
        assert (G : forall c, In c (menu_children item) ->
                              leaf_test c = false /\ sub_entry c = []).
        { intros c Hc. apply sub_entry_contributes_nothing;
            [now apply (menu_child_is_menu_item item) | now apply H]. }
        split.
        -- replace (filter leaf_test (menu_children item)) with (@nil Element);
             [reflexivity|].
           symmetry. apply filter_nil. intros c Hc. now apply G.
        -- intros c Hc. now apply G.
Qed.

(** X10: a child that is not a menu item (a separator, say), or is
    pruned, or is a group with an empty cleaned header can be taken out
    of its parent without changing the parent's result. *)
Theorem removing_silent_child
        (t : string) (a : list (string * string))
        (pre : list Element) (c : Element) (post : list Element) :
  contributes_nothing c = true ->
  parse_menu_item_recursive (mkElement t a (pre ++ c :: post))
  = parse_menu_item_recursive (mkElement t a (pre ++ post)).
Proof.
  intros Hc.
  set (item1 := mkElement t a (pre ++ c :: post)).
  set (item2 := mkElement t a (pre ++ post)).
  assert (Hsep : is_separator item1 = is_separator item2) by reflexivity.
  assert (Hleaf : leaf_test item1 = leaf_test item2) by reflexivity.
  destruct (is_separator item2) eqn:Hs.
  - now rewrite !parse_separator.
  - destruct (leaf_test item2) eqn:Hl.
    + now rewrite !parse_leaf.
    + rewrite !container_result by assumption.
      unfold menu_children, item1, item2. cbn [children].
      rewrite !filter_app. cbn [filter].
      destruct (is_menu_item c) eqn:Hm; [|reflexivity].
      apply sub_entry_contributes_nothing in Hc as [Hcl Hce]; [|assumption].
      unfold sub_entries. rewrite ?filter_app, ?flat_map_app.
      cbn [filter flat_map]. now rewrite Hcl, Hce.
Qed.

Lemma removing_silent_child_witness :
  parse_menu_item_recursive section_elem
  = parse_menu_item_recursive
      (group_elem "{x:Static wpf:C.Sec}"
         [leaf_elem "Foo" "t1"; group_elem "Sub" [leaf_elem "Bar" "t2"]]).
Proof.
  apply (removing_silent_child "MenuItem" [("Header", "{x:Static wpf:C.Sec}")]
           [leaf_elem "Foo" "t1"] (mkElement "Separator" [] [])
           [group_elem "Sub" [leaf_elem "Bar" "t2"]]).
  reflexivity.
Defined.

(** The shape of every result, by induction on the tree. *)
Lemma parse_shape_invariant (item : Element) (v : value) :
  parse_menu_item_recursive item = Some v ->
  (leaf_test item = true /\ v = leaf_action item)
  \/ (leaf_test item = false /\ is_category v = true).
Proof.
  revert v. induction item as [t a kids IH] using Element_children_ind.
  intros v. set (item := mkElement t a kids).
  destruct (is_separator item) eqn:Hs.
  - rewrite parse_separator by assumption. discriminate.
  - destruct (leaf_test item) eqn:Hl.
    + rewrite parse_leaf by assumption. intros H. inversion H. now left.
    + rewrite parse_container by assumption.
      destruct (is_nil (menu_children item)); [discriminate|].
      intros H. right. split; [reflexivity|].
      assert (HS : forall kv, In kv (subcategories_of item) -> entry_ok kv = true).
      { intros [k x] Hin. pose proof Hin as Hin'.
        apply subcategories_values in Hin as (c & Hc & Hcl & Hk & Hp).
        rewrite subcategories_closed_form in Hin'.
        apply dict_update_In in Hin' as [[]|Hin'].
        apply sub_entries_In in Hin' as (_ & _ & _ & _ & _ & Ht).
        cbn [entry_ok]. rewrite Ht. cbn [andb].
        assert (Hkid : In c kids)
          by (unfold menu_children in Hc; apply filter_In in Hc; tauto).
        rewrite Forall_forall in IH.
        destruct (IH c Hkid x Hp) as [[E _]|[_ E]]; [congruence | exact E]. }
      assert (HL : forallb is_leaf_action (leaf_items_of item) = true)
        by (rewrite leaf_items_closed_form; apply leaf_actions_all).
      unfold shape in H.
      destruct (is_nil (leaf_items_of item)) eqn:EL,
               (is_nil (subcategories_of item)) eqn:ES;
        cbn [negb andb] in H; inversion H; subst v.
      * apply is_category_dict;
          [now apply is_nil_false | apply subcategories_nodup | exact HS].
      * cbn [is_category]. now rewrite EL, HL.
      * rewrite dict_update_singleton by apply subcategories_nodup.
        apply is_nil_false in EL.
        apply (mixed_result_category _ _ EL HL (subcategories_nodup item) HS).
Qed.

(** X11: whatever the tree, a result is the LeafAction of the node (when
    the node passes the leaf test) or a Category: a non-empty list of
    LeafActions, or a non-empty dict with distinct non-empty keys whose
    values are Categories. *)
Theorem result_well_formed (item : Element) (v : value) :
  parse_menu_item_recursive item = Some v ->
  (leaf_test item = true /\ v = leaf_action item)
  \/ (leaf_test item = false /\ is_category v = true).
Proof. apply parse_shape_invariant. Qed.

Lemma result_well_formed_witness :
  (leaf_test section_elem = true
   /\ VDict [("direct", VList [leaf_action (leaf_elem "Foo" "t1")]);
             ("Sub", VList [leaf_action (leaf_elem "Bar" "t2")])]
      = leaf_action section_elem)
  \/ (leaf_test section_elem = false
      /\ is_category
           (VDict [("direct", VList [leaf_action (leaf_elem "Foo" "t1")]);
                   ("Sub", VList [leaf_action (leaf_elem "Bar" "t2")])])
         = true).
Proof. apply result_well_formed. vm_compute. reflexivity. Defined.

(** ** More on the root-level pass *)

Section DocumentFacts.

Lemma dict_update_app (d es es' : dict) :
  dict_update d (es ++ es')%list = dict_update (dict_update d es) es'.
Proof. unfold dict_update. apply fold_left_app. Qed.

Lemma root_step_entry (result : dict) (d : Element) :
  root_step result d = dict_update result (root_entry d).
Proof.
  unfold root_step, root_entry.
  destruct (is_menu_item d); [|reflexivity]. cbn [negb andb].
  destruct (Str.truthy (get d "Header" "")); [|reflexivity]. cbn [negb].
  destruct (parse_menu_item_recursive d) as [v|]; [|reflexivity].
  destruct (value_truthy v); reflexivity.
Qed.

(** The loop over the children of the root, in closed form. *)
Lemma root_loop_closed_form (l : list Element) :
  forall result,
    fold_left root_step l result = dict_update result (flat_map root_entry l).
Proof.
  induction l as [|d l IH]; intros result; [reflexivity|].
  cbn [fold_left flat_map]. now rewrite IH, root_step_entry, dict_update_app.
Qed.

Lemma menu_document_closed_form (root : Element) :
  menu_document root = dict_update [] (flat_map root_entry (children root)).
Proof. apply root_loop_closed_form. Qed.

Lemma root_entry_section (d : Element) :
  root_entry d =
  if is_section d
  then match parse_menu_item_recursive d with
       | Some v => [(child_key d, v)]
       | None => []
       end
  else [].
Proof.
  unfold root_entry, is_section.
  destruct (is_menu_item d && Str.truthy (get d "Header" "")); [|reflexivity].
  destruct (parse_menu_item_recursive d) as [v|] eqn:E; [|reflexivity].
  now rewrite (parse_truthy d v E).
Qed.

Lemma root_entries_keys (l : list Element) :
  map fst (flat_map root_entry l) = map child_key (filter is_section l).
Proof.
  induction l as [|d l IH]; [reflexivity|].
  cbn [flat_map filter]. rewrite map_app, IH, root_entry_section.
  unfold is_section.
  destruct (is_menu_item d && Str.truthy (get d "Header" "")); [|reflexivity].
  now destruct (parse_menu_item_recursive d).
Qed.

Lemma root_entries_In (k : string) (v : value) (l : list Element) :
  In (k, v) (flat_map root_entry l) <->
  exists c, In c l /\ is_section c = true /\ child_key c = k
            /\ parse_menu_item_recursive c = Some v.
Proof.
  rewrite in_flat_map. split.
  - intros [c [Hin H]]. exists c. split; [assumption|].
    rewrite root_entry_section in H.
    destruct (is_section c); [|contradiction].
    destruct (parse_menu_item_recursive c) as [x|]; [|contradiction].
    destruct H as [H|[]]. inversion H; subst. tauto.
  - intros [c (Hin & Hs & Hk & Hp)]. exists c. split; [assumption|].
    rewrite root_entry_section, Hs, Hp, Hk. now left.
Qed.

Lemma clean_header_truthy (h : string) :
  Str.truthy h = true -> Str.truthy (clean_header h) = true.
Proof.
  intros H. destruct (clean_header_cases h) as [->|(m & Hm & ->)];
    [assumption|].
  apply search_resource_group in Hm as [Hne _].
  apply readable_truthy. now apply truthy_true_iff.
Qed.

Lemma is_section_parts (c : Element) :
  is_section c = true ->
  is_menu_item c = true /\ get c "Header" "" <> ""
  /\ is_some (parse_menu_item_recursive c) = true.
Proof.
  unfold is_section. intros H.
  apply andb_true_iff in H as [H H3]. apply andb_true_iff in H as [H1 H2].
  apply truthy_true_iff in H2. tauto.
Qed.

(** Every result is a LeafAction or a Category. *)
Lemma parse_leaf_or_category (item : Element) (v : value) :
  parse_menu_item_recursive item = Some v ->
  is_leaf_action v || is_category v = true.
Proof.
  intros H. apply parse_shape_invariant in H as [[_ ->]|[_ H]].
  - now rewrite leaf_action_is_leaf_action.
  - rewrite H. apply orb_true_r.
Qed.

End DocumentFacts.

(** X12: the keys of the document are the cleaned headers of the root
    children that become sections, in the order of their first
    occurrence; no key is repeated and none is empty. *)
Theorem document_sections_in_order (root : Element) :
  keys (menu_document root)
  = first_occ (map child_key (filter is_section (children root)))
  /\ NoDup (keys (menu_document root))
  /\ (forall k, In k (keys (menu_document root)) -> k <> "").
Proof.
  rewrite menu_document_closed_form. split; [|split].
  - now rewrite keys_dict_update_empty, root_entries_keys.
  - apply keys_dict_update_nodup. constructor.
  - intros k Hk. unfold keys in Hk. apply in_map_iff in Hk as [[k' v] [Hk Hin]].
    simpl in Hk. subst k'.
    apply dict_update_In in Hin as [[]|Hin].
    apply root_entries_In in Hin as (c & _ & Hs & Hkey & _).
    apply is_section_parts in Hs as (_ & Hh & _).
    apply truthy_true_iff. rewrite <- Hkey. unfold child_key.
    apply clean_header_truthy. now apply truthy_true_iff.
Qed.

(** X13: every entry of the document comes from a menu-item child of the
    root with a non-empty header: its key is the cleaned header and its
    value the classification of that child, a LeafAction or a
    Category. *)
Theorem document_entries (root : Element) (k : string) (v : value) :
  In (k, v) (menu_document root) ->
  exists c, In c (children root)
            /\ is_menu_item c = true
            /\ get c "Header" "" <> ""
            /\ child_key c = k
            /\ parse_menu_item_recursive c = Some v
            /\ is_leaf_action v || is_category v = true.
Proof.
  rewrite menu_document_closed_form. intros Hin.
  apply dict_update_In in Hin as [[]|Hin].
  apply root_entries_In in Hin as (c & Hc & Hs & Hkey & Hp).
  apply is_section_parts in Hs as (Hm & Hh & _).
  exists c. repeat split; try assumption.
  now apply (parse_leaf_or_category c).
Qed.

Lemma document_entries_witness :
  exists c, In c [leaf_elem "Foo" "t1"; section_elem]
            /\ is_menu_item c = true
            /\ get c "Header" "" <> ""
            /\ child_key c = "Foo"
            /\ parse_menu_item_recursive c
               = Some (leaf_action (leaf_elem "Foo" "t1"))
            /\ is_leaf_action (leaf_action (leaf_elem "Foo" "t1"))
               || is_category (leaf_action (leaf_elem "Foo" "t1")) = true.
Proof.
  apply (document_entries
           (mkElement "root" [] [leaf_elem "Foo" "t1"; section_elem])).
  vm_compute. left. reflexivity.
Defined.

(** X14: of several root children that become sections under the same
    key, the document holds the classification of the last. *)
Theorem document_last_section_wins
        (root : Element) (pre : list Element) (c : Element)
        (post : list Element) :
  children root = (pre ++ c :: post)%list ->
  is_section c = true ->
  (forall d, In d post -> is_section d = true -> child_key d <> child_key c) ->
  dict_get (child_key c) (menu_document root) = parse_menu_item_recursive c.
Proof.
  intros Hkids Hs Hpost.
  rewrite menu_document_closed_form, Hkids, dict_get_update.
  rewrite flat_map_app. cbn [flat_map].
  rewrite (root_entry_section c), Hs.
  destruct (parse_menu_item_recursive c) as [v|] eqn:Hp.
  2:{ apply is_section_parts in Hs as (_ & _ & Hsome).
      rewrite Hp in Hsome. discriminate. }
  rewrite !rev_app_distr. cbn [rev app].
  rewrite <- app_assoc, dict_get_app.
  assert (Hnone : dict_get (child_key c) (rev (flat_map root_entry post)) = None).
  { apply dict_get_none_iff. unfold keys.
    rewrite map_rev, <- in_rev, root_entries_keys.
    intros Hin. apply in_map_iff in Hin as [d [Hd Hin]].
    apply filter_In in Hin as [Hin Hsec].
    now apply (Hpost d Hin Hsec). }
  rewrite Hnone. cbn [app dict_get]. now rewrite String.eqb_refl.
Qed.

Lemma document_last_section_wins_witness :
  dict_get (child_key second_sub)
    (menu_document (mkElement "root" [] [first_sub; second_sub; section_elem]))
  = parse_menu_item_recursive second_sub.
Proof.
  apply (document_last_section_wins _ [first_sub] second_sub [section_elem]).
  - reflexivity.
  - vm_compute. reflexivity.
  - intros d [<-|[]] _. vm_compute. discriminate.
Defined.

(** ** The summary count *)

Section CountFacts.

Lemma list_sum_cons (n : nat) (l : list nat) :
  list_sum (n :: l) = n + list_sum l.
Proof. reflexivity. Qed.

Lemma count_dict (d : dict) (depth : nat) :
  count_nested_items (VDict d) depth = list_sum (map (entry_count depth) d).
Proof.
  induction d as [|[k x] d IH]; [reflexivity|].
  change (count_nested_items (VDict ((k, x) :: d)) depth)
    with (match x with
          | VList l => List.length l
          | VDict _ => count_nested_items x (S depth)
          | VStr _ => 0
          end + count_nested_items (VDict d) depth).
  rewrite IH. cbn [map]. rewrite list_sum_cons. unfold entry_count at 1.
  cbn [snd]. destruct x; reflexivity.
Qed.

Lemma filter_differs_absent (k : string) (d : dict) :
  ~ In k (keys d) -> filter (fun kv => differs k (fst kv)) d = d.
Proof.
  induction d as [|[k' x] d IH]; simpl; intros H; [reflexivity|].
  rewrite differs_other by (intros E; apply H; left; congruence).
  now rewrite IH by tauto.
Qed.

(** The entry of a key, taken out of a sum over the entries. *)
Lemma list_sum_entry (f : string * value -> nat) (k : string) (x : value)
      (d : dict) :
  (forall k1 k2 y, f (k1, y) = f (k2, y)) ->
  NoDup (keys d) -> dict_get k d = Some x ->
  list_sum (map f d)
  = f (k, x) + list_sum (map f (filter (fun kv => differs k (fst kv)) d)).
Proof.
  intros Hf. induction d as [|[k' x'] d IH]; intros Hnd Hget; [discriminate|].
  simpl in Hnd. inversion Hnd as [|? ? Hnin Hnd']; subst.
  cbn [dict_get] in Hget. cbn [filter fst map]. rewrite list_sum_cons.
  destruct (String.eqb_spec k k') as [->|Hne].
  - inversion Hget; subst. rewrite differs_same.
    now rewrite filter_differs_absent.
  - rewrite differs_other by congruence. cbn [map]. rewrite list_sum_cons.
    rewrite (IH Hnd' Hget). lia.
Qed.

End CountFacts.

(** X15: for a node that is neither separator nor leaf item, the count
    of its result is the number of its leaf items plus what each
    subcategory entry counts for; when a subcategory is named [direct]
    the leaf items are not counted. *)
Theorem container_count (item : Element) (v : value) (depth : nat) :
  is_separator item = false ->
  leaf_test item = false ->
  parse_menu_item_recursive item = Some v ->
  count_nested_items v depth
  = (if mem "direct" (keys (subcategories_of item)) then 0
     else List.length (leaf_items_of item))
    + list_sum (map (entry_count depth) (subcategories_of item)).
Proof.
  intros Hs Hl. rewrite parse_container by assumption.
  destruct (is_nil (menu_children item)); [discriminate|].
  unfold shape.
  destruct (is_nil (leaf_items_of item)) eqn:EL,
           (is_nil (subcategories_of item)) eqn:ES;
    cbn [negb andb]; intros H; inversion H; subst v.
  - apply is_nil_true in EL. rewrite EL, count_dict.
    now destruct (mem "direct" (keys (subcategories_of item))).
  - apply is_nil_true in ES. rewrite ES. simpl. lia.
  - rewrite dict_update_singleton by apply subcategories_nodup.
    rewrite count_dict. cbn [map]. rewrite list_sum_cons.
    destruct (dict_get "direct" (subcategories_of item)) as [x|] eqn:E.
    + assert (Hmem : mem "direct" (keys (subcategories_of item)) = true).
      { apply mem_In. apply dict_get_In in E.
        apply (in_map fst) in E. exact E. }
      rewrite Hmem.
      rewrite (list_sum_entry (entry_count depth) "direct" x
                 (subcategories_of item));
        [reflexivity | reflexivity | apply subcategories_nodup | exact E].
    + apply dict_get_none_iff in E.
      rewrite filter_differs_absent by assumption.
      apply mem_false_In in E. rewrite E. reflexivity.
Qed.

Lemma container_count_witness :
  count_nested_items
    (VDict [("direct", VList [leaf_action (leaf_elem "Foo" "t1")]);
            ("Sub", VList [leaf_action (leaf_elem "Bar" "t2")])]) 0
  = (if mem "direct" (keys (subcategories_of section_elem)) then 0
     else List.length (leaf_items_of section_elem))
    + list_sum (map (entry_count 0) (subcategories_of section_elem)).
Proof.
  apply (container_count section_elem); [reflexivity | reflexivity |].
  vm_compute. reflexivity.
Defined.

(** ** Line extraction *)

Section LineFacts.

Lemma join_app (a b : list string) : join (a ++ b) = join a ++ join b.
Proof.
  induction a as [|x a IH]; simpl; [reflexivity|].
  now rewrite IH, app_assoc_str.
Qed.

Lemma join_readlines (content : string) : join (readlines content) = content.
Proof.
  induction content as [|c t IH]; [reflexivity|].
  cbn [readlines]. destruct (Ascii.eqb c Str.newline).
  - simpl. now rewrite IH.
  - destruct (readlines t) as [|line rest]; simpl in *; now rewrite <- IH.
Qed.

Lemma readlines_nonempty_lines (content : string) :
  Forall (fun line => line <> "") (readlines content).
Proof.
  induction content as [|c t IH]; [constructor|].
  cbn [readlines]. destruct (Ascii.eqb c Str.newline).
  - constructor; [discriminate | exact IH].
  - destruct (readlines t) as [|line rest].
    + constructor; [discriminate | constructor].
    + inversion IH; subst. constructor; [discriminate | assumption].
Qed.

Lemma slice_bound_inside (n k : Z) :
  (0 <= k <= n)%Z -> slice_bound n k = k.
Proof.
  intros H. unfold slice_bound.
  destruct (Z.ltb_spec k 0); lia.
Qed.

Lemma slice_bound_negative (n k : Z) :
  (k < 0)%Z -> slice_bound n k = Z.max 0 (k + n).
Proof.
  intros H. unfold slice_bound.
  destruct (Z.ltb_spec k 0); lia.
Qed.

Lemma slice_bound_range (n k : Z) :
  (0 <= n)%Z -> (0 <= slice_bound n k <= n)%Z.
Proof.
  intros H. unfold slice_bound. destruct (Z.ltb_spec k 0); lia.
Qed.

(** A slice with bounds inside the list. *)
Lemma slice_inside {A} (l : list A) (i j : Z) :
  (0 <= i)%Z -> (i <= j)%Z -> (j <= Z.of_nat (List.length l))%Z ->
  slice l i j = firstn (Z.to_nat j - Z.to_nat i) (skipn (Z.to_nat i) l).
Proof.
  intros Hi Hij Hj. unfold slice.
  rewrite !slice_bound_inside by lia.
  f_equal. lia.
Qed.

Lemma firstn_add {A} (k1 k2 : nat) (l : list A) :
  firstn (k1 + k2) l = (firstn k1 l ++ firstn k2 (skipn k1 l))%list.
Proof.
  revert l. induction k1 as [|k1 IH]; intros l; [reflexivity|].
  destruct l as [|x l]; simpl.
  - now rewrite firstn_nil.
  - now rewrite IH.
Qed.

Lemma firstn_skipn_nth {A} (d : A) (k a : nat) (l : list A) :
  a + k <= List.length l ->
  firstn k (skipn a l) = map (fun i => nth i l d) (seq a k).
Proof.
  revert a l. induction k as [|k IH]; intros a l H; [reflexivity|].
  cbn [seq map].
  rewrite <- (IH (S a) l) by lia.
  clear IH. revert l H. induction a as [|a IHa]; intros l H.
  - destruct l as [|x l]; [simpl in H; lia | reflexivity].
  - destruct l as [|x l]; [simpl in H; lia|].
    cbn [skipn nth]. apply IHa. simpl in H. lia.
Qed.

Lemma extract_lines_checked (lines : list string) (s e : Z) :
  (1 <= s)%Z -> (e <= Z.of_nat (List.length lines))%Z ->
  extract_lines lines s e = inr (join (slice lines (s - 1) e)).
Proof.
  intros Hs He. unfold extract_lines.
  destruct (Z.ltb_spec (s - 1) 0); [lia|].
  destruct (Z.gtb_spec e (Z.of_nat (List.length lines))); [lia|].
  reflexivity.
Qed.

End LineFacts.

(** X16: the extraction gives the empty string when the file cannot be
    read, when the range is out of bounds ([start_line] below 1 or
    [end_line] beyond the last line), and when [end_line] is not
    negative and lies before [start_line]. *)
Theorem extract_empty_cases (content : string) (start_line end_line : Z) :
  let n := Z.of_nat (List.length (readlines content)) in
  (forall e, extract_lines_from_file (inl e) start_line end_line = "")
  /\ ((start_line < 1 \/ n < end_line
       \/ (1 <= start_line /\ 0 <= end_line < start_line))%Z ->
      extract_lines_from_file (inr content) start_line end_line = "").
Proof.
  intros n. split; [reflexivity|].
  intros H. unfold extract_lines_from_file.
  destruct (Z.le_gt_cases 1 start_line) as [Hs|Hs];
    [destruct (Z.le_gt_cases end_line n) as [He|He]|].
  - rewrite extract_lines_checked by assumption.
    assert (Hrange : (0 <= end_line < start_line)%Z) by lia.
    unfold slice. fold n.
    rewrite (slice_bound_inside n end_line) by lia.
    pose proof (slice_bound_range n (start_line - 1) ltac:(lia)) as Hb.
    assert (Hge : (end_line <= slice_bound n (start_line - 1))%Z).
    { unfold slice_bound. destruct (Z.ltb_spec (start_line - 1) 0); lia. }
    replace (Z.to_nat (end_line - slice_bound n (start_line - 1))) with 0 by lia.
    reflexivity.
  - unfold extract_lines. fold n.
    destruct (Z.gtb_spec end_line n); [|lia].
    now rewrite orb_true_r.
  - unfold extract_lines.
    destruct (Z.ltb_spec (start_line - 1) 0); [reflexivity | lia].
Qed.

Lemma extract_empty_cases_witness :
  extract_lines_from_file (inr two_lines) 3 2 = "".
Proof.
  apply (extract_empty_cases two_lines 3 2). right. right. lia.
Defined.

(** X17: for [1 <= start_line <= end_line <= number of lines] the
    result is the concatenation of the lines numbered [start_line] to
    [end_line], both included, counting from 1. *)
Theorem extract_in_range (content : string) (start_line end_line : Z) :
  (1 <= start_line)%Z -> (start_line <= end_line)%Z ->
  (end_line <= Z.of_nat (List.length (readlines content)))%Z ->
  extract_lines_from_file (inr content) start_line end_line
  = join (map (fun i => nth i (readlines content) "")
              (seq (Z.to_nat (start_line - 1))
                   (Z.to_nat (end_line - start_line + 1)))).
Proof.
  intros Hs Hse He. unfold extract_lines_from_file.
  rewrite extract_lines_checked by lia.
  rewrite slice_inside by lia.
  rewrite (firstn_skipn_nth "") by lia.
  do 3 f_equal. lia.
Qed.

Lemma extract_in_range_witness :
  extract_lines_from_file (inr three_lines) 2 3
  = join (map (fun i => nth i (readlines three_lines) "") (seq 1 2)).
Proof.
  apply (extract_in_range _ 2 3);
    first [lia | vm_compute; discriminate].
Defined.

(** X18: two adjacent ranges extract to the two halves of the range
    they make up. *)
Theorem extract_adjacent (content : string) (start_line mid end_line : Z) :
  (1 <= start_line)%Z -> (start_line - 1 <= mid)%Z -> (mid <= end_line)%Z ->
  (end_line <= Z.of_nat (List.length (readlines content)))%Z ->
  extract_lines_from_file (inr content) start_line mid
  ++ extract_lines_from_file (inr content) (mid + 1) end_line
  = extract_lines_from_file (inr content) start_line end_line.
Proof.
  intros Hs Hm Hme He. unfold extract_lines_from_file.
  rewrite !extract_lines_checked by lia.
  rewrite !slice_inside by lia.
  rewrite <- join_app.
  replace (Z.to_nat end_line - Z.to_nat (start_line - 1))
    with ((Z.to_nat mid - Z.to_nat (start_line - 1))
          + (Z.to_nat end_line - Z.to_nat (mid + 1 - 1))) by lia.
  rewrite firstn_add, skipn_skipn.
  do 4 f_equal. lia.
Qed.

Lemma extract_adjacent_witness :
  extract_lines_from_file (inr three_lines) 1 1
  ++ extract_lines_from_file (inr three_lines) 2 3
  = extract_lines_from_file (inr three_lines) 1 3.
Proof.
  apply (extract_adjacent _ 1 1 3);
    first [lia | vm_compute; discriminate].
Defined.

(** X19: the lines of a file put together are its content, so the range
    from line 1 to the last line extracts the whole content; no line is
    empty. *)
Theorem extract_whole_file (content : string) :
  join (readlines content) = content
  /\ Forall (fun line => line <> "") (readlines content)
  /\ extract_lines_from_file (inr content) 1
       (Z.of_nat (List.length (readlines content)))
     = content.
Proof.
  split; [apply join_readlines | split; [apply readlines_nonempty_lines|]].
  unfold extract_lines_from_file.
  rewrite extract_lines_checked by lia.
  rewrite slice_inside by lia.
  rewrite Nat2Z.id. cbn [Z.sub Z.to_nat skipn].
  rewrite Nat.sub_0_r, firstn_all. apply join_readlines.
Qed.

(** X20: a negative [end_line] is not rejected by the bounds check: it
    is read from the end of the file, as [end_line] plus the number of
    lines (or 0 when that is negative). *)
Theorem extract_negative_end (content : string) (start_line end_line : Z) :
  (1 <= start_line)%Z -> (end_line < 0)%Z ->
  extract_lines_from_file (inr content) start_line end_line
  = extract_lines_from_file (inr content) start_line
      (Z.max 0 (end_line + Z.of_nat (List.length (readlines content)))).
Proof.
  intros Hs He. unfold extract_lines_from_file.
  rewrite !extract_lines_checked by lia.
  unfold slice.
  rewrite (slice_bound_negative _ end_line) by assumption.
  rewrite (slice_bound_inside _ (Z.max 0 _)) by lia.
  reflexivity.
Qed.

Lemma extract_negative_end_witness :
  extract_lines_from_file (inr three_lines) 1 (-1)
  = extract_lines_from_file (inr three_lines) 1 (Z.max 0 (-1 + 3)).
Proof.
  apply (extract_negative_end three_lines 1 (-1)); lia.
Defined.

(** ** Shape of a container without a subcategory named [direct] *)

(** X21: for a node that is neither a separator nor a leaf item, with
    [L] the LeafActions of its leaf children in document order and [S]
    its subcategory map, whose keys are in first-encountered order: when
    both are non-empty and no subcategory is named [direct], the result
    is the mapping of [direct] to [L] followed by the entries of [S];
    with only [L] the result is the bare list [L]; with only [S] it is
    the bare mapping [S]. *)
Theorem container_shape_without_direct_subcategory (item : Element) :
  is_separator item = false ->
  leaf_test item = false ->
  let kids := menu_children item in
  let L := map leaf_action (filter leaf_test kids) in
  let S := subcategories_of item in
  map parse_menu_item_recursive (filter leaf_test kids) = map Some L
  /\ leaf_items_of item = L
  /\ keys S = first_occ (map child_key (filter is_subcategory kids))
  /\ (L <> [] -> S <> [] -> ~ In "direct" (keys S) ->
      parse_menu_item_recursive item = Some (VDict (spec_mixed L S)))
  /\ (L <> [] -> S = [] -> parse_menu_item_recursive item = Some (VList L))
  /\ (L = [] -> S <> [] -> parse_menu_item_recursive item = Some (VDict S)).
Proof.
  intros Hs Hl kids L S.
  assert (HL : leaf_items_of item = L) by apply leaf_items_closed_form.
  split; [|split; [exact HL|split; [|split; [|split]]]].
  - subst L. rewrite map_map. apply map_ext_in. intros c Hc.
    apply filter_In in Hc as [Hc Hleaf].
    apply parse_menu_leaf; [|assumption].
    now apply (menu_child_is_menu_item item).
  - subst S. rewrite subcategories_closed_form, keys_dict_update_empty.
    now rewrite sub_entries_keys.
  - intros HLne HSne Hfresh. rewrite <- HL in *.
    rewrite parse_mixed by assumption.
    unfold mixed_result, spec_mixed. fold S.
    rewrite filter_differs_absent by assumption.
    apply dict_get_none_iff in Hfresh. now rewrite Hfresh.
  - intros HLne HSe. rewrite <- HL in *. rewrite parse_container by assumption.
    rewrite container_has_children by tauto. fold S.
    unfold shape. apply is_nil_false in HLne. rewrite HLne, HSe. reflexivity.
  - intros HLe HSne. rewrite <- HL in *. rewrite parse_container by assumption.
    rewrite container_has_children by tauto. fold S.
    unfold shape. apply is_nil_false in HSne. rewrite HLe, HSne. reflexivity.
Qed.

Lemma container_shape_without_direct_subcategory_witness :
  parse_menu_item_recursive section_elem
  = Some (VDict [("direct", VList [leaf_action (leaf_elem "Foo" "t1")]);
                 ("Sub", VList [leaf_action (leaf_elem "Bar" "t2")])]).
Proof.
  destruct (container_shape_without_direct_subcategory
              section_elem eq_refl eq_refl) as (_ & _ & _ & H & _).
  rewrite H.
  - vm_compute. reflexivity.
  - vm_compute. discriminate.
  - vm_compute. discriminate.
  - vm_compute. intros [E|[]]. discriminate.
Defined.
